(** * The Luanet session protocol of go-lua

    A shallow embedding of the session code that go-lua adds to the IPFS
    node ([JoinLuanet], [SendQuicMsg], [ReadQuicMsg], [GetIpInfo],
    [HeartBeat], [CmdHandlers]), of the diagnostics of package [node]
    ([NodeTest], [ipv4Test], [ipv6Test]) and of the [test] command, whose
    older version carries its own [ipv4Test] and [ipv6Test].

    The node talks to the network, the clock, the file system and the key
    store.  Every such call is answered by a [World]: a record of functions
    from the number of calls made so far (the tick) to the answer of the
    call.  The Go code becomes a function from the node's mutable state to
    a result, a new state and the list of the calls it made.

    [SendQuicMsg] and [JoinLuanet] call each other, without a bound when
    every send fails; the recursion is cut by a fuel, and a run that uses it
    up ends as [Starved].  The heartbeat and the command loop never end;
    they are cut after a number of firings of their tickers.  The node runs
    the two loops in two goroutines; here each is run on its own.

    Module [core] holds the two methods of the node that the session code
    sits next to, [Context] and [Bootstrap], with the closure that
    [Bootstrap] installs; [node.dots] is the goroutine that prints the
    progress of a speed test. *)

From Stdlib Require Import ZArith String Ascii List PrimFloat DecimalString.
From stdpp Require Import gmap strings list.
From Stdlib Require DecimalPos DecimalZ.

Local Open Scope Z_scope.

(** ** Go values *)

(** [int64] arithmetic wraps around. *)
Definition wrap64 (z : Z) : Z := (z + 2 ^ 63) `mod` 2 ^ 64 - 2 ^ 63.
Definition add64 (a b : Z) : Z := wrap64 (a + b).

(** [strconv.FormatInt(z, 10)]. *)
Definition FormatInt10 (z : Z) : string := NilZero.string_of_int (Z.to_int z).

(** [s] holds the character [c]. *)
Fixpoint holds_char (c : ascii) (s : string) : bool :=
  match s with
  | EmptyString => false
  | String x rest => Ascii.eqb x c || holds_char c rest
  end.

(** Go errors.  [Errorf] is an error the node builds itself with
    [fmt.Errorf]; [LibError] is an error handed back by a library call. *)
Inductive error :=
| Errorf (msg : string)
| LibError (msg : string).

(** ** The messages of [github.com/luanet/lua-proto/proto]

    The package is a dependency and not part of the repository.  Its
    service tags and its [Ip] record are used opaquely by the node, so they
    are parameters of the development. *)

Record IpTest := {
  IpTest_Ip : string;
  Swarm : bool;
  Gateway : bool;
}.

Definition IpTest_zero : IpTest :=
  {| IpTest_Ip := EmptyString; Swarm := false; Gateway := false |}.

Class ProtoPkg := {
  ServiceTag : Type;
  ServiceTag_eq_dec :: EqDecision ServiceTag;
  JoinService : ServiceTag;
  HeartBeatService : ServiceTag;
  SpeedTestService : ServiceTag;
  ServiceTag_zero : ServiceTag;
  Ip : Type;
  Ip_zero : Ip;
  IsOpen : IpTest → bool;
}.

Record PemPair := {
  Privkey : string;
  Cert : string;
}.

Record ProtoCert := {
  Pems : PemPair;
}.

Record Stats := {
  Storage : Z;
  StatsIn : Z;
  StatsOut : Z;
  Ingress : float;
  Egress : float;
}.

Record HeartBeatReq := {
  HeartBeatReq_Stats : Stats;
}.

Record TestResult := {
  Ports : gmap string IpTest;
  Download : float;
  Upload : float;
}.

(** [JoinRes.Certs] is a Go map.  The list holds its entries in the order
    in which [range] visits them, which the Go runtime chooses. *)
Record JoinRes := {
  Success : bool;
  Message : string;
  Certs : list (string * ProtoCert);
}.

Section Messages.
Context {P : ProtoPkg}.

Record JoinReq := {
  Address : string;
  Ipv4 : Ip;
  Ipv6 : Ip;
  Signature : string;
  Expires : Z;
}.

(** The dynamic type of [Proto.Data], an [interface{}]. *)
Inductive Payload :=
| DNil
| DJoinReq (r : JoinReq)
| DJoinRes (r : JoinRes)
| DHeartBeatReq (r : HeartBeatReq)
| DTestResult (r : TestResult)
| DOther.

Record Proto := {
  Service : ServiceTag;
  Data : Payload;
}.

Definition Proto_zero : Proto := {| Service := ServiceTag_zero; Data := DNil |}.
End Messages.

(** ** Configuration and collaborators *)

(** [config.Luanet]. *)
Record Luanet := {
  Domain : string;
  Node : string;
  Api : string;
  ExpiresTime : Z;
}.

Record Config := {
  Config_Luanet : Luanet;
}.

(** [metrics.Stats], the answer of [Reporter.GetBandwidthTotals]. *)
Record BandwidthTotals := {
  TotalIn : Z;
  TotalOut : Z;
  RateIn : float;
  RateOut : float;
}.

(** The fields of [IpfsNode] that the session code reads and never
    writes.  [Identity] is the node id as [Identity.String()] prints it. *)
Record IpfsNode := {
  Identity : string;
  PrivateKey : string;
  ConfigRoot : string;
}.

(** A stream is named by the tick at which [OpenStreamSync] returned it, so
    two streams opened by different calls are different. *)
Definition StreamId := nat.

(** The mutable state: the [Stream] field of the node, the file system and
    the tick. *)
Record State := {
  Stream : option StreamId;
  dirs : gset string;
  files : gmap string string;
  now : nat;
}.

Definition set_Stream (s : option StreamId) (st : State) : State :=
  {| Stream := s; dirs := dirs st; files := files st; now := now st |}.
Definition set_dirs (d : gset string) (st : State) : State :=
  {| Stream := Stream st; dirs := d; files := files st; now := now st |}.
Definition set_files (f : gmap string string) (st : State) : State :=
  {| Stream := Stream st; dirs := dirs st; files := f; now := now st |}.
Definition set_now (t : nat) (st : State) : State :=
  {| Stream := Stream st; dirs := dirs st; files := files st; now := t |}.

(** The body of an HTTP answer, as [encoding/json] sees it: either text
    that does not scan as one JSON value, or a JSON value.  The node only
    decodes into flat records, so the members of an object are kept as
    scalars; [JComposite] stands for a nested array or object. *)
Inductive JValue :=
| JNull
| JBool (b : bool)
| JNumber (literal : string)
| JString (s : string)
| JComposite.

Inductive Body :=
| NotJSON
| JSONScalar (v : JValue)
| JSONArray
| JSONObject (members : list (string * JValue)).

(** A measurement server of [speedtest-go] after its two tests: the error
    of each test and the speeds the server object then holds. *)
Record Server := {
  DownloadTest : option string;
  UploadTest : option string;
  DLSpeed : float;
  ULSpeed : float;
  CheckResultValid : bool;
}.

Section World.
Context {P : ProtoPkg}.

(** The answers of the outside world.  The first argument is the tick of
    the call.  [None] in an [option string] is a nil error. *)
Record World := {
  env_Repo_Config : nat → result Config string;
  env_DialAddr : nat → string → option string;
  env_OpenStreamSync : nat → option string;
  env_Now_Unix : nat → Z;
  env_Sign : nat → string → string → result string string;
  env_http_Get_Ip : nat → string → option Ip;
  env_Encode : nat → StreamId → Proto → option string;
  env_Decode : nat → StreamId → result Proto string;
  env_MkdirAll : nat → string → option string;
  env_WriteFile : nat → string → string → option (string * option string);
  env_GetBandwidthTotals : nat → BandwidthTotals;
  env_http_Get : nat → string → result Body string;
  env_FindServer : nat → list Server;
  filepath_Join : list string → string;
}.

(** What the node does to the outside world, in order. *)
Inductive Event :=
| ECall_JoinLuanet
| ELog (level msg : string)
| EPrintln (msg : string)
| EDialAddr (addr : string) (ok : bool)
| EOpenStreamSync (s : option StreamId)
| ESign (bytes : string) (ok : bool)
| EAssignStream (s : StreamId)
| EEncode (s : StreamId) (m : Proto) (ok : bool)
| EDecode (s : StreamId) (m : option Proto)
| EMkdirAll (path : string) (ok : bool)
| EWriteFile (path data : string) (ok : bool)
| EGet (url : string) (ok : bool).
End World.

(** ** The monad of the node's code *)

Inductive Res (A : Type) :=
| Ret (a : A)
| Panic (reason : string)
| Starved.
Arguments Ret {A} a.
Arguments Panic {A} reason.
Arguments Starved {A}.

Section Monad.
Context {P : ProtoPkg}.

Definition M (A : Type) : Type := State → Res A * State * list Event.

Definition ret {A} (a : A) : M A := λ st, (Ret a, st, []).

Definition bind {A B} (m : M A) (k : A → M B) : M B := λ st,
  match m st with
  | (Ret a, st1, e1) =>
      match k a st1 with
      | (r, st2, e2) => (r, st2, e1 ++ e2)
      end
  | (Panic reason, st1, e1) => (Panic reason, st1, e1)
  | (Starved, st1, e1) => (Starved, st1, e1)
  end.

Definition panic {A} (reason : string) : M A := λ st, (Panic reason, st, []).
Definition starve {A} : M A := λ st, (Starved, st, []).
Definition emit (e : Event) : M unit := λ st, (Ret tt, st, [e]).
Definition get : M State := λ st, (Ret st, st, []).
Definition modify (f : State → State) : M unit := λ st, (Ret tt, f st, []).

(** The tick of the next call to the world. *)
Definition tick : M nat := λ st, (Ret (now st), set_now (S (now st)) st, []).

Definition res_of {A} (r : Res A * State * list Event) : Res A := r.1.1.
Definition st_of {A} (r : Res A * State * list Event) : State := r.1.2.
Definition evs_of {A} (r : Res A * State * list Event) : list Event := r.2.
End Monad.

Declare Scope go_scope.
Delimit Scope go_scope with go.
Notation "x ← y ; z" := (bind y (λ x, z))
  (at level 20, y at level 100, z at level 200) : go_scope.
Notation "x ;; z" := (bind x (λ _, z))
  (at level 100, z at level 200, right associativity) : go_scope.
(** The Go idiom [x, err := y; if err != nil { return nil, err }]. *)
Notation "x ←? y ; z" :=
  (bind y (λ r, match r with Ok x => z | Error e => ret (Error e) end))
  (at level 20, y at level 100, z at level 200) : go_scope.

Local Open Scope go_scope.

(** The infinite [for { select { case <-ticker.C: body } }] loops, cut
    after the first [k] firings of the ticker. *)
Fixpoint iterate `{P : ProtoPkg} (k : nat) (body : M unit) : M unit :=
  match k with
  | O => ret tt
  | S k' => body ;; iterate k' body
  end.

(** ** Calls to the outside world *)

Section Calls.
Context {P : ProtoPkg} (w : World) (n : IpfsNode).

Definition lib {A} (r : result A string) : result A error :=
  match r with
  | Ok a => Ok a
  | Error e => Error (LibError e)
  end.

Definition log_Info (msg : string) : M unit := emit (ELog "info" msg).
Definition log_Warn (msg : string) : M unit := emit (ELog "warn" msg).
Definition log_Error (msg : string) : M unit := emit (ELog "error" msg).
Definition fmt_Println (msg : string) : M unit := emit (EPrintln msg).

Definition Repo_Config : M (result Config error) :=
  t ← tick; ret (lib (env_Repo_Config w t)).

Definition quic_DialAddr (addr : string) : M (result unit error) :=
  t ← tick;
  match env_DialAddr w t addr with
  | None => emit (EDialAddr addr true) ;; ret (Ok tt)
  | Some e => emit (EDialAddr addr false) ;; ret (Error (LibError e))
  end.

Definition conn_OpenStreamSync : M (result StreamId error) :=
  t ← tick;
  match env_OpenStreamSync w t with
  | None => emit (EOpenStreamSync (Some t)) ;; ret (Ok t)
  | Some e => emit (EOpenStreamSync None) ;; ret (Error (LibError e))
  end.

Definition time_Now_Unix : M Z :=
  t ← tick; ret (env_Now_Unix w t).

Definition PrivateKey_Sign (bytes : string) : M (result string error) :=
  t ← tick;
  match env_Sign w t (PrivateKey n) bytes with
  | Ok sig => emit (ESign bytes true) ;; ret (Ok sig)
  | Error e => emit (ESign bytes false) ;; ret (Error (LibError e))
  end.

(** [enc.Encode(msg)] on a [gob.NewEncoder(s)]. *)
Definition gob_Encode (s : StreamId) (msg : Proto) : M (option error) :=
  t ← tick;
  match env_Encode w t s msg with
  | None => emit (EEncode s msg true) ;; ret None
  | Some e => emit (EEncode s msg false) ;; ret (Some (LibError e))
  end.

(** [dec.Decode(&message)] on a [gob.NewDecoder(s)]: the decoded
    envelope, or an error that leaves [message] as it was. *)
Definition gob_Decode (s : StreamId) : M (result Proto error) :=
  t ← tick;
  match env_Decode w t s with
  | Ok m => emit (EDecode s (Some m)) ;; ret (Ok m)
  | Error e => emit (EDecode s None) ;; ret (Error (LibError e))
  end.

Definition os_MkdirAll (path : string) : M (option error) :=
  t ← tick;
  match env_MkdirAll w t path with
  | None =>
      modify (λ st, set_dirs ({[path]} ∪ dirs st) st) ;;
      emit (EMkdirAll path true) ;; ret None
  | Some e => emit (EMkdirAll path false) ;; ret (Some (LibError e))
  end.

(** [ioutil.WriteFile(path, data, perm)].  A failed write leaves the
    file as it was or, when the world says so, with some other content. *)
Definition ioutil_WriteFile (path data : string) : M (option error) :=
  t ← tick;
  match env_WriteFile w t path data with
  | None =>
      modify (λ st, set_files (<[path := data]> (files st)) st) ;;
      emit (EWriteFile path data true) ;; ret None
  | Some (e, residue) =>
      match residue with
      | Some junk => modify (λ st, set_files (<[path := junk]> (files st)) st)
      | None => ret tt
      end ;;
      emit (EWriteFile path data false) ;; ret (Some (LibError e))
  end.

Definition Reporter_GetBandwidthTotals : M BandwidthTotals :=
  t ← tick; ret (env_GetBandwidthTotals w t).

Definition http_Get (url : string) : M (result Body error) :=
  t ← tick;
  match env_http_Get w t url with
  | Ok b => emit (EGet url true) ;; ret (Ok b)
  | Error e => emit (EGet url false) ;; ret (Error (LibError e))
  end.

(** [*n.Stream]: dereferencing the nil pointer panics. *)
Definition deref_Stream : M StreamId :=
  st ← get;
  match Stream st with
  | Some s => ret s
  | None => panic "invalid memory address or nil pointer dereference"
  end.
End Calls.

(** ** [encoding/json] into an [IpTest]

    [Decode] first scans one JSON value; text that does not scan is an
    error and the target is untouched.  [null] is no error and no change.
    An object is decoded member by member: a key selects a field by its
    name, letter case ignored; a value of the wrong JSON type for the field
    is skipped, the decoding goes on, and the first such mismatch is the
    error that [Decode] returns at the end.  This is the documented rule of
    [json.Unmarshal]: it skips a value that is not appropriate for its
    target, completes the unmarshaling as best it can, and returns an
    [UnmarshalTypeError] describing the earliest such error. *)

Definition ascii_lower (c : ascii) : ascii :=
  let k := nat_of_ascii c in
  if ((65 <=? k) && (k <=? 90))%nat then ascii_of_nat (k + 32) else c.

Fixpoint string_lower (s : string) : string :=
  match s with
  | EmptyString => EmptyString
  | String c r => String (ascii_lower c) (string_lower r)
  end.

Definition key_is (field key : string) : bool :=
  String.eqb key field || String.eqb (string_lower key) field.

Definition merge_err (saved new : option string) : option string :=
  match saved with
  | Some e => Some e
  | None => new
  end.

Definition store_string (v : JValue) (old : string) : string * option string :=
  match v with
  | JString s => (s, None)
  | JNull => (old, None)
  | _ => (old, Some "json: cannot unmarshal into Go struct field of type string")
  end.

Definition store_bool (v : JValue) (old : bool) : bool * option string :=
  match v with
  | JBool b => (b, None)
  | JNull => (old, None)
  | _ => (old, Some "json: cannot unmarshal into Go struct field of type bool")
  end.

Definition decode_member (acc : IpTest * option string) (kv : string * JValue)
    : IpTest * option string :=
  let '(c, saved) := acc in
  let '(key, v) := kv in
  if key_is "ip" key then
    let '(x, e) := store_string v (IpTest_Ip c) in
    ({| IpTest_Ip := x; Swarm := Swarm c; Gateway := Gateway c |}, merge_err saved e)
  else if key_is "swarm" key then
    let '(x, e) := store_bool v (Swarm c) in
    ({| IpTest_Ip := IpTest_Ip c; Swarm := x; Gateway := Gateway c |}, merge_err saved e)
  else if key_is "gateway" key then
    let '(x, e) := store_bool v (Gateway c) in
    ({| IpTest_Ip := IpTest_Ip c; Swarm := Swarm c; Gateway := x |}, merge_err saved e)
  else (c, saved).

(** [json.NewDecoder(body).Decode(&cResp)]: the new value of [cResp] and
    the error. *)
Definition json_Decode_IpTest (body : Body) (cResp : IpTest) : IpTest * option string :=
  match body with
  | NotJSON => (cResp, Some "invalid character")
  | JSONScalar JNull => (cResp, None)
  | JSONScalar _ => (cResp, Some "json: cannot unmarshal into Go value of type IpTest")
  | JSONArray => (cResp, Some "json: cannot unmarshal array into Go value of type IpTest")
  | JSONObject members => fold_left decode_member members (cResp, None)
  end.

(** ** [core/core.go]: the session code of the node *)

Section Node.
Context {P : ProtoPkg} (w : World) (n : IpfsNode).

(** [ReadQuicMsg]: the named result [message] starts as the zero
    envelope and is returned whatever [Decode] said. *)
Definition ReadQuicMsg : M Proto :=
  s ← deref_Stream;
  r ← gob_Decode w s;
  match r with
  | Ok message => ret message
  | Error err =>
      log_Error "Failed to read quic message: %v" ;;
      ret Proto_zero
  end.

(** [SendQuicMsg], with the call [n.JoinLuanet()] of its error branch as
    an argument.  The function has no result, and the two results of the
    join are dropped. *)
Definition SendQuicMsg_with (JoinLuanet : M (result JoinRes error)) (msg : Proto)
    : M unit :=
  s ← deref_Stream;
  err ← gob_Encode w s msg;
  match err with
  | Some _ =>
      log_Error "Failed to send quic message: %v" ;;
      _ ← JoinLuanet;
      ret tt
  | None => ret tt
  end.

Definition GetIpInfo (version : string) : M Ip :=
  let ip := Ip_zero in
  c ← Repo_Config w;
  match c with
  | Error _ => ret ip
  | Ok cfg =>
      t ← tick;
      let url := "http://" +:+ version +:+ "." +:+ Domain (Config_Luanet cfg) in
      match env_http_Get_Ip w t url with
      | None => emit (EGet url false) ;; ret ip
      | Some decoded => emit (EGet url true) ;; ret decoded
      end
  end.

Definition cert_dir (ip : string) : string :=
  filepath_Join w [ConfigRoot n; "certs"; ip].
Definition private_pem (ip : string) : string :=
  filepath_Join w [ConfigRoot n; "certs"; ip; "private.pem"].
Definition cert_pem (ip : string) : string :=
  filepath_Join w [ConfigRoot n; "certs"; ip; "cert.pem"].

(** The files that the loop below writes for a list of certificates. *)
Definition cert_files (certs : list (string * ProtoCert)) : list string :=
  flat_map (λ entry, [private_pem entry.1; cert_pem entry.1]) certs.

(** The loop [for ip, cert := range joinRes.Certs] of [JoinLuanet]; the
    result is the error of its early [return nil, err], if any. *)
Fixpoint write_certs (certs : list (string * ProtoCert)) : M (option error) :=
  match certs with
  | [] => ret None
  | (ip, cert) :: rest =>
      e1 ← os_MkdirAll w (cert_dir ip);
      match e1 with
      | Some err => ret (Some err)
      | None =>
          e2 ← ioutil_WriteFile w (private_pem ip) (Privkey (Pems cert));
          match e2 with
          | Some err => ret (Some err)
          | None =>
              _ ← ioutil_WriteFile w (cert_pem ip) (Cert (Pems cert));
              write_certs rest
          end
      end
  end.

(** [JoinLuanet].  It calls [SendQuicMsg], which calls it back when the
    send fails; [fuel] bounds the depth of that recursion. *)
Fixpoint JoinLuanet (fuel : nat) : M (result JoinRes error) :=
  match fuel with
  | O => starve
  | S fuel' =>
      emit ECall_JoinLuanet ;;
      cfg ←? Repo_Config w;
      log_Info ("Connecting to node address: " +:+ Api (Config_Luanet cfg)) ;;
      conn ←? quic_DialAddr w (Api (Config_Luanet cfg));
      stream ←? conn_OpenStreamSync w;
      unix ← time_Now_Unix w;
      let expires := add64 unix (ExpiresTime (Config_Luanet cfg)) in
      let bytes := Identity n +:+ "." +:+ FormatInt10 expires in
      signature ←? PrivateKey_Sign w n bytes;
      ip4 ← GetIpInfo "ip4";
      ip6 ← GetIpInfo "ip6";
      let message :=
        {| Service := JoinService;
           Data := DJoinReq {| Address := Identity n;
                               Ipv4 := ip4;
                               Ipv6 := ip6;
                               Signature := signature;
                               Expires := expires |} |} in
      modify (set_Stream (Some stream)) ;;
      emit (EAssignStream stream) ;;
      SendQuicMsg_with (JoinLuanet fuel') message ;;
      msg ← ReadQuicMsg;
      match Data msg with
      | DJoinRes joinRes =>
          if negb (Success joinRes) then
            ret (Error (Errorf ("Failed to join lua network: " +:+ Message joinRes)))
          else
            e ← write_certs (Certs joinRes);
            match e with
            | Some err => ret (Error err)
            | None => ret (Ok joinRes)
            end
      | _ => panic "interface conversion: interface {} is not proto.JoinRes"
      end
  end.

Definition SendQuicMsg (fuel : nat) (msg : Proto) : M unit :=
  SendQuicMsg_with (JoinLuanet fuel) msg.

(** One firing of the ticker of [HeartBeat]. *)
Definition heartbeat_message (totals : BandwidthTotals) : Proto :=
  {| Service := HeartBeatService;
     Data := DHeartBeatReq
               {| HeartBeatReq_Stats :=
                    {| Storage := 0;
                       StatsIn := TotalIn totals;
                       StatsOut := TotalOut totals;
                       Ingress := RateIn totals;
                       Egress := RateOut totals |} |} |}.

Definition HeartBeat_tick (fuel : nat) : M unit :=
  totals ← Reporter_GetBandwidthTotals w;
  let message := heartbeat_message totals in
  SendQuicMsg fuel message.

Definition HeartBeat (fuel k : nat) : M unit :=
  iterate k (HeartBeat_tick fuel).

(** One firing of the ticker of [CmdHandlers].  The body of the
    [SpeedTestService] case is commented out in the source, so the
    [switch] leaves [message] alone. *)
Definition CmdHandlers_tick (fuel : nat) : M unit :=
  msg ← ReadQuicMsg;
  let message := {| Service := Service msg; Data := DNil |} in
  let message :=
    if decide (Service msg = SpeedTestService) then message else message in
  match Data message with
  | DNil => ret tt
  | _ =>
      fmt_Println "Sending cmd response...." ;;
      SendQuicMsg fuel message
  end.

Definition CmdHandlers (fuel k : nat) : M unit :=
  iterate k (CmdHandlers_tick fuel).
End Node.

(** ** [core/core.go]: the context and the bootstrapper of the node *)

Module core.
Section Lifecycle.
(** [context.Context], [io.Closer], the routing system and the function
    values that a caller may pass as [cfg.BootstrapPeers] belong to
    libraries. *)
Context {Ctx Closer Router PeersFunc : Type}.

(** The fields of [IpfsNode] that [Context] and [Bootstrap] read and
    write; [None] is nil. *)
Record Fields := {
  ctx : option Ctx;
  Routing : option Router;
  Bootstrapper : option Closer;
}.

(** [Context]: the field [ctx], set to [context.TODO()] first when it is
    nil. *)
Definition Context (context_TODO : Ctx) (n : Fields) : Ctx * Fields :=
  match ctx n with
  | None =>
      (context_TODO,
       {| ctx := Some context_TODO; Routing := Routing n; Bootstrapper := Bootstrapper n |})
  | Some c => (c, n)
  end.

(** The value of [cfg.BootstrapPeers] that [Bootstrap] hands on: the
    function of the caller, or the closure that reads the peers from the
    configuration of the node. *)
Inductive Peers :=
| OfCaller (f : PeersFunc)
| OfConfig.

(** [bootstrap.BootstrapConfig]. *)
Record BootstrapConfig := {
  BootstrapPeers : option PeersFunc;
}.

(** What [Bootstrap] does to its collaborators. *)
Inductive BootEvent :=
| EClose (b : Closer)
| EBootstrap (peers : Peers) (started : option Closer).

(** [Bootstrap]; [bootstrap_Bootstrap] is the library function, whose two
    results are assigned to [n.Bootstrapper] and to [err]. *)
Definition Bootstrap (bootstrap_Bootstrap : Peers → option Closer * option error)
    (cfg : BootstrapConfig) (n : Fields) : option error * Fields * list BootEvent :=
  match Routing n with
  | None => (None, n, [])
  | Some _ =>
      let closing :=
        match Bootstrapper n with
        | Some b => [EClose b]
        | None => []
        end in
      let peers :=
        match BootstrapPeers cfg with
        | None => OfConfig
        | Some f => OfCaller f
        end in
      let '(b, err) := bootstrap_Bootstrap peers in
      (err, {| ctx := ctx n; Routing := Routing n; Bootstrapper := b |},
       closing ++ [EBootstrap peers b])
  end.

(** Calls of [Bootstrap] one after the other; the library answers the
    [i]-th call with [answers i]. *)
Fixpoint Bootstraps (answers : nat → Peers → option Closer * option error) (i : nat)
    (cfgs : list BootstrapConfig) (n : Fields) : Fields * list BootEvent :=
  match cfgs with
  | [] => (n, [])
  | cfg :: rest =>
      let '(_, n1, e1) := Bootstrap (answers i) cfg n in
      let '(n2, e2) := Bootstraps answers (S i) rest n1 in
      (n2, e1 ++ e2)
  end.

(** The bootstrappers that were closed, and those that were started, in
    order. *)
Definition closed (evs : list BootEvent) : list Closer :=
  omap (λ e, match e with EClose b => Some b | _ => None end) evs.

Definition started (evs : list BootEvent) : list Closer :=
  omap (λ e, match e with EBootstrap _ (Some b) => Some b | _ => None end) evs.
End Lifecycle.

Arguments Fields : clear implicits.
Arguments Peers : clear implicits.
Arguments BootstrapConfig : clear implicits.
Arguments BootEvent : clear implicits.

Section Peers.
Context {P : ProtoPkg} {AddrInfo : Type} (w : World).
(** [cfg.BootstrapPeers()] of the configuration package parses the
    addresses that the configuration lists. *)
Context (Config_BootstrapPeers : Config → result (list AddrInfo) string).

Definition loadBootstrapPeers : M (result (list AddrInfo) error) :=
  cfg ←? Repo_Config w;
  ret (lib (Config_BootstrapPeers cfg)).

(** The closure that [Bootstrap] installs when the caller gave no
    function; a nil slice is the empty list. *)
Definition default_BootstrapPeers : M (list AddrInfo) :=
  r ← loadBootstrapPeers;
  match r with
  | Error _ =>
      log_Warn "failed to parse bootstrap peers from config" ;;
      ret []
  | Ok ps => ret ps
  end.
End Peers.
End core.

(** ** [core/node]: the diagnostics *)

Module node.

(** [dots]: the goroutine that [testDownload] and [testUpload] start.  At
    each round its [select] takes the value sent on [quit] when a sender
    waits, and returns; otherwise it sleeps a second and prints a dot.
    The sender is another goroutine: [waiting i] tells whether it waits at
    round [i].  The result is what was printed, or [None] when [dots] still
    runs after [fuel] rounds. *)
Fixpoint dots (waiting : nat → bool) (i fuel : nat) : option (list string) :=
  match fuel with
  | O => None
  | S fuel' =>
      if waiting i then Some []
      else cons "." <$> dots waiting (S i) fuel'
  end.

Section Diagnostics.
Context {P : ProtoPkg} (w : World).

(** [ipv4Test] and [ipv6Test] are the same code up to the URL and the
    version named in the log lines. *)
Definition probe (version tag URL : string) : M IpTest :=
  let cResp := IpTest_zero in
  r ← http_Get w URL;
  match r with
  | Error _ =>
      log_Warn ("Failed to check " +:+ version +:+ " port forwarding.") ;;
      ret cResp
  | Ok body =>
      let '(cResp, err) := json_Decode_IpTest body cResp in
      match err with
      | Some _ =>
          log_Warn ("Failed to decode " +:+ version +:+ " port forwarding data.") ;;
          ret cResp
      | None =>
          (if negb (Swarm cResp)
           then log_Warn (tag +:+ " Swarm port 4001 is not opened to the internet.")
           else ret tt) ;;
          (if negb (Gateway cResp)
           then log_Warn (tag +:+ " Gateway port 443 is not opened to the internet.")
           else ret tt) ;;
          ret cResp
      end
  end.

Definition ipv4Test : M IpTest := probe "ipv4" "[Ipv4]" "http://ip4.luanet.io".
Definition ipv6Test : M IpTest := probe "ipv6" "[Ipv6]" "http://ip6.luanet.io".

(** [testDownload] and [testUpload] return the error of the test of the
    server; the progress dots they print from a goroutine are left out. *)
Definition testDownload (s : Server) : M (option error) :=
  fmt_Println "[Speedtest] Downloading: " ;;
  ret (LibError <$> DownloadTest s).

Definition testUpload (s : Server) : M (option error) :=
  fmt_Println "[Speedtest] Uploading: " ;;
  ret (LibError <$> UploadTest s).

Definition showSpeedResult (s : Server) : M unit :=
  fmt_Println "[Speedtest] Download Speed" ;;
  fmt_Println "[Speedtest] Upload Speed" ;;
  if negb (CheckResultValid s)
  then fmt_Println "Warning: Result seems to be wrong. Please speedtest again."
  else ret tt.

(** [NodeTest]; the result is what it sends on the channel.  The loop
    over the servers ends with [break], so only the first one is used. *)
Definition NodeTest : M TestResult :=
  v4 ← ipv4Test;
  v6 ← ipv6Test;
  (if negb (IsOpen v4) && negb (IsOpen v6)
   then log_Error "Your node's ports is not open to the internet."
   else ret tt) ;;
  let ports := <["v6" := v6]> (<["v4" := v4]> (∅ : gmap string IpTest)) in
  t ← tick;
  match env_FindServer w t with
  | s :: _ =>
      e1 ← testDownload s;
      let download := match e1 with None => DLSpeed s | Some _ => 0%float end in
      e2 ← testUpload s;
      let upload := match e2 with None => ULSpeed s | Some _ => 0%float end in
      showSpeedResult s ;;
      ret {| Ports := ports; Download := download; Upload := upload |}
  | [] => ret {| Ports := ports; Download := 0%float; Upload := 0%float |}
  end.
End Diagnostics.
End node.

(** ** The [test] command *)

(** The older command, which has its own probes; they answer with one
    boolean. *)
Module cmd_old.
Section Command.
Context {P : ProtoPkg} (w : World).

Definition probe (version tag URL : string) : M bool :=
  r ← http_Get w URL;
  match r with
  | Error _ =>
      log_Warn ("Failed to check " +:+ version +:+ " port forwarding.") ;;
      ret false
  | Ok body =>
      let '(cResp, err) := json_Decode_IpTest body IpTest_zero in
      match err with
      | Some _ =>
          log_Warn ("Failed to decode " +:+ version +:+ " port forwarding data.") ;;
          ret false
      | None =>
          (if negb (Swarm cResp)
           then log_Warn (tag +:+ " Swarm port 4001 is not opened to the internet.")
           else ret tt) ;;
          (if negb (Gateway cResp)
           then log_Warn (tag +:+ " Gateway port 443 is not opened to the internet.")
           else ret tt) ;;
          ret (Swarm cResp && Gateway cResp)
      end
  end.

Definition ipv4Test : M bool := probe "ipv4" "[Ipv4]" "http://ip4.luanet.io".
Definition ipv6Test : M bool := probe "ipv6" "[Ipv6]" "http://ip6.luanet.io".

Fixpoint speedtests (targets : list Server) : M (option error) :=
  match targets with
  | [] => ret None
  | s :: rest =>
      e1 ← node.testDownload s;
      match e1 with
      | Some err => ret (Some err)
      | None =>
          e2 ← node.testUpload s;
          match e2 with
          | Some err => ret (Some err)
          | None => node.showSpeedResult s ;; speedtests rest
          end
      end
  end.

(** [Run]: the error for closed ports is commented out in the source. *)
Definition Run : M (option error) :=
  ip4Opened ← ipv4Test;
  ip6Opened ← ipv6Test;
  (if negb ip4Opened && negb ip6Opened then ret tt else ret tt) ;;
  t ← tick;
  speedtests (env_FindServer w t).
End Command.
End cmd_old.

(** The current command: it waits for [node.NodeTest] and returns nil. *)
Module cmd.
Section Command.
Context {P : ProtoPkg} (w : World).

Definition Run : M (option error) :=
  _ ← node.NodeTest w;
  ret None.
End Command.
End cmd.

(** ** Reading a list of servers *)

(** The tests of a list of servers in the order in which the older command
    runs them, and the error of the first one that fails. *)
Definition test_results (targets : list Server) : list (option string) :=
  flat_map (λ s, [DownloadTest s; UploadTest s]) targets.

Definition first_failure (targets : list Server) : option string :=
  head (omap id (test_results targets)).

(** The servers that passed both tests before the first failure. *)
Fixpoint passed (targets : list Server) : list Server :=
  match targets with
  | [] => []
  | s :: rest =>
      match DownloadTest s, UploadTest s with
      | None, None => s :: passed rest
      | _, _ => []
      end
  end.

(** ** Reading a list of events *)

Section Projections.
Context {P : ProtoPkg}.

(** The envelopes handed to [Encode], in order. *)
Definition encoded (evs : list Event) : list Proto :=
  omap (λ e, match e with EEncode _ m _ => Some m | _ => None end) evs.

(** The byte strings handed to [Sign], in order. *)
Definition signed (evs : list Event) : list string :=
  omap (λ e, match e with ESign b _ => Some b | _ => None end) evs.

Definition is_join_request (m : Proto) : Prop :=
  Service m = JoinService ∧ ∃ r, Data m = DJoinReq r.

(** The paths and contents handed to [WriteFile], in order. *)
Definition written (evs : list Event) : list (string * string * bool) :=
  omap (λ e, match e with EWriteFile p d ok => Some (p, d, ok) | _ => None end) evs.

(** The log lines of level [warn] and [error], in order. *)
Definition complaints (evs : list Event) : list string :=
  omap (λ e, match e with
             | ELog level msg =>
                 if String.eqb level "info" then None else Some msg
             | _ => None
             end) evs.

Definition is_get (e : Event) : Prop := ∃ url ok, e = EGet url ok.

(** The number of calls of [JoinLuanet] before the next [Encode]. *)
Fixpoint joins_before_next_send (evs : list Event) : nat :=
  match evs with
  | [] => O
  | EEncode _ _ _ :: _ => O
  | ECall_JoinLuanet :: rest => S (joins_before_next_send rest)
  | _ :: rest => joins_before_next_send rest
  end.
End Projections.

Section Traffic.
Context {P : ProtoPkg}.

(** The number of calls of [JoinLuanet]. *)
Definition join_calls (evs : list Event) : nat :=
  length (omap (λ e, match e with ECall_JoinLuanet => Some tt | _ => None end) evs).

(** The envelopes whose [Encode] failed, in order. *)
Definition failed_sends (evs : list Event) : list Proto :=
  omap (λ e, match e with EEncode _ m false => Some m | _ => None end) evs.

(** What [Decode] gave, in order; [None] is a failed [Decode]. *)
Definition decoded (evs : list Event) : list (option Proto) :=
  omap (λ e, match e with EDecode _ m => Some m | _ => None end) evs.

(** The addresses that [Get] was called on, in order. *)
Definition asked (evs : list Event) : list string :=
  omap (λ e, match e with EGet url _ => Some url | _ => None end) evs.

(** What was printed, in order. *)
Definition printed (evs : list Event) : list string :=
  omap (λ e, match e with EPrintln msg => Some msg | _ => None end) evs.

(** The number of download tests that were started. *)
Definition downloads_started (evs : list Event) : nat :=
  length (List.filter (String.eqb "[Speedtest] Downloading: ") (printed evs)).

(** The stream that the field [Stream] holds after [evs], when it held
    [cur] before. *)
Fixpoint held_after (cur : option StreamId) (evs : list Event) : option StreamId :=
  match evs with
  | [] => cur
  | EAssignStream s :: rest => held_after (Some s) rest
  | _ :: rest => held_after cur rest
  end.

(** Every [Encode] and every [Decode] of [evs] is on the stream that the
    field [Stream] holds at that moment. *)
Fixpoint on_held_stream (cur : option StreamId) (evs : list Event) : bool :=
  match evs with
  | [] => true
  | EAssignStream s :: rest => on_held_stream (Some s) rest
  | EEncode s _ _ :: rest => bool_decide (cur = Some s) && on_held_stream cur rest
  | EDecode s _ :: rest => bool_decide (cur = Some s) && on_held_stream cur rest
  | _ :: rest => on_held_stream cur rest
  end.

(** An answer that [JoinLuanet] can use: a decoded envelope that holds a
    [JoinRes]. *)
Definition is_JoinRes (x : option Proto) : bool :=
  match x with
  | Some m => match Data m with DJoinRes _ => true | _ => false end
  | None => false
  end.

(** The certificates of the answers that accepted a join, in the order in
    which the answers were decoded. *)
Definition certs_of (x : option Proto) : list (string * ProtoCert) :=
  match x with
  | Some m =>
      match Data m with
      | DJoinRes jr => if Success jr then Certs jr else []
      | _ => []
      end
  | None => []
  end.

Definition received_certs (evs : list Event) : list (string * ProtoCert) :=
  flat_map certs_of (decoded evs).

(** The events of the session: the calls of [JoinLuanet], the
    assignments of the stream and what goes over it. *)
Definition is_session_event (e : Event) : bool :=
  match e with
  | ECall_JoinLuanet | EAssignStream _ | EEncode _ _ _ | EDecode _ _ => true
  | _ => false
  end.
End Traffic.

(** The reasons of the two panics of the session code. *)
Definition type_assertion_failed : string :=
  "interface conversion: interface {} is not proto.JoinRes".
Definition nil_dereference : string :=
  "invalid memory address or nil pointer dereference".

(** ** Concrete worlds

    A package instance, a node and a few worlds on which the statements
    below are run. *)

Module Example.
#[export] Instance pkg : ProtoPkg := {|
  ServiceTag := nat;
  JoinService := 1%nat;
  HeartBeatService := 2%nat;
  SpeedTestService := 3%nat;
  ServiceTag_zero := 0%nat;
  Ip := string;
  Ip_zero := EmptyString;
  IsOpen := λ t, Swarm t && Gateway t;
|}.

Definition qm123 : IpfsNode :=
  {| Identity := "Qm123"; PrivateKey := "sk-qm123"; ConfigRoot := "/data/lua" |}.

Definition cfg : Config :=
  {| Config_Luanet :=
       {| Domain := "luanet.io"; Node := "Qm123";
          Api := "api.luanet.io:4242"; ExpiresTime := 3600 |} |}.

Definition cert1 : ProtoCert := {| Pems := {| Privkey := "KEY-1"; Cert := "CERT-1" |} |}.
Definition cert2 : ProtoCert := {| Pems := {| Privkey := "KEY-2"; Cert := "CERT-2" |} |}.

Definition two_certs : list (string * ProtoCert) :=
  [("1.2.3.4", cert1); ("5.6.7.8", cert2)].

Definition welcome : JoinRes :=
  {| Success := true; Message := "welcome"; Certs := two_certs |}.
Definition refusal : JoinRes :=
  {| Success := false; Message := "bad signature"; Certs := [] |}.

Definition accept : Proto := {| Service := JoinService; Data := DJoinRes welcome |}.
Definition reject : Proto := {| Service := JoinService; Data := DJoinRes refusal |}.
Definition unknown_command : Proto := {| Service := 42%nat; Data := DNil |}.

(** A toy signature scheme: the signature is the key followed by the
    signed bytes, and the public key is the private key. *)
Definition toy_sign (key bytes : string) : string := key +:+ "|" +:+ bytes.
Definition toy_public (key : string) : string := key.
Definition toy_verify (pub bytes sig : string) : bool :=
  String.eqb sig (toy_sign pub bytes).

Definition totals1 : BandwidthTotals :=
  {| TotalIn := 100; TotalOut := 50; RateIn := 10%float; RateOut := 5%float |}.
Definition totals2 : BandwidthTotals :=
  {| TotalIn := 150; TotalOut := 70; RateIn := 12%float; RateOut := 6%float |}.

(** The world in which every call succeeds and the coordinator accepts
    the join.  The clock stands at 1699996400. *)
Definition calm : World := {|
  env_Repo_Config := λ _, Ok cfg;
  env_DialAddr := λ _ _, None;
  env_OpenStreamSync := λ _, None;
  env_Now_Unix := λ _, 1699996400;
  env_Sign := λ _ key bytes, Ok (toy_sign key bytes);
  env_http_Get_Ip := λ _ _, Some "203.0.113.7";
  env_Encode := λ _ _ _, None;
  env_Decode := λ _ _, Ok accept;
  env_MkdirAll := λ _ _, None;
  env_WriteFile := λ _ _ _, None;
  env_GetBandwidthTotals := λ t, if (t <? 3)%nat then totals1 else totals2;
  env_http_Get := λ _ _, Error "i/o timeout";
  env_FindServer := λ _, [];
  filepath_Join := String.concat "/";
|}.

Definition with_DialAddr (f : nat → string → option string) (w : World) : World := {|
  env_Repo_Config := env_Repo_Config w;
  env_DialAddr := f;
  env_OpenStreamSync := env_OpenStreamSync w;
  env_Now_Unix := env_Now_Unix w;
  env_Sign := env_Sign w;
  env_http_Get_Ip := env_http_Get_Ip w;
  env_Encode := env_Encode w;
  env_Decode := env_Decode w;
  env_MkdirAll := env_MkdirAll w;
  env_WriteFile := env_WriteFile w;
  env_GetBandwidthTotals := env_GetBandwidthTotals w;
  env_http_Get := env_http_Get w;
  env_FindServer := env_FindServer w;
  filepath_Join := filepath_Join w;
|}.

Definition with_Encode (f : nat → StreamId → Proto → option string) (w : World) : World := {|
  env_Repo_Config := env_Repo_Config w;
  env_DialAddr := env_DialAddr w;
  env_OpenStreamSync := env_OpenStreamSync w;
  env_Now_Unix := env_Now_Unix w;
  env_Sign := env_Sign w;
  env_http_Get_Ip := env_http_Get_Ip w;
  env_Encode := f;
  env_Decode := env_Decode w;
  env_MkdirAll := env_MkdirAll w;
  env_WriteFile := env_WriteFile w;
  env_GetBandwidthTotals := env_GetBandwidthTotals w;
  env_http_Get := env_http_Get w;
  env_FindServer := env_FindServer w;
  filepath_Join := filepath_Join w;
|}.

Definition with_Decode (f : nat → StreamId → result Proto string) (w : World) : World := {|
  env_Repo_Config := env_Repo_Config w;
  env_DialAddr := env_DialAddr w;
  env_OpenStreamSync := env_OpenStreamSync w;
  env_Now_Unix := env_Now_Unix w;
  env_Sign := env_Sign w;
  env_http_Get_Ip := env_http_Get_Ip w;
  env_Encode := env_Encode w;
  env_Decode := f;
  env_MkdirAll := env_MkdirAll w;
  env_WriteFile := env_WriteFile w;
  env_GetBandwidthTotals := env_GetBandwidthTotals w;
  env_http_Get := env_http_Get w;
  env_FindServer := env_FindServer w;
  filepath_Join := filepath_Join w;
|}.

Definition with_WriteFile
    (f : nat → string → string → option (string * option string)) (w : World) : World := {|
  env_Repo_Config := env_Repo_Config w;
  env_DialAddr := env_DialAddr w;
  env_OpenStreamSync := env_OpenStreamSync w;
  env_Now_Unix := env_Now_Unix w;
  env_Sign := env_Sign w;
  env_http_Get_Ip := env_http_Get_Ip w;
  env_Encode := env_Encode w;
  env_Decode := env_Decode w;
  env_MkdirAll := env_MkdirAll w;
  env_WriteFile := f;
  env_GetBandwidthTotals := env_GetBandwidthTotals w;
  env_http_Get := env_http_Get w;
  env_FindServer := env_FindServer w;
  filepath_Join := filepath_Join w;
|}.

Definition with_http_Get (f : nat → string → result Body string) (w : World) : World := {|
  env_Repo_Config := env_Repo_Config w;
  env_DialAddr := env_DialAddr w;
  env_OpenStreamSync := env_OpenStreamSync w;
  env_Now_Unix := env_Now_Unix w;
  env_Sign := env_Sign w;
  env_http_Get_Ip := env_http_Get_Ip w;
  env_Encode := env_Encode w;
  env_Decode := env_Decode w;
  env_MkdirAll := env_MkdirAll w;
  env_WriteFile := env_WriteFile w;
  env_GetBandwidthTotals := env_GetBandwidthTotals w;
  env_http_Get := f;
  env_FindServer := env_FindServer w;
  filepath_Join := filepath_Join w;
|}.

(** The node before its first join, and a node whose stream was opened
    at tick 0. *)
Definition boot : State := {| Stream := None; dirs := ∅; files := ∅; now := 0 |}.
Definition online : State := {| Stream := Some 0%nat; dirs := ∅; files := ∅; now := 1 |}.

(** The stream breaks for the first send, and the coordinator cannot be
    dialled afterwards. *)
Definition broken_link : World :=
  with_DialAddr (λ _ _, Some "no recent network activity")
    (with_Encode (λ _ _ _, Some "stream closed") calm).

(** Every send fails, and every dial succeeds. *)
Definition mute : World := with_Encode (λ _ _ _, Some "stream closed") calm.

(** The coordinator refuses the join. *)
Definition refusing : World := with_Decode (λ _ _, Ok reject) calm.


(** The coordinator sends a command with a tag the node does not know. *)
Definition commanding : World := with_Decode (λ _ _, Ok unknown_command) calm.

(** The disk refuses every [private.pem]. *)
Definition no_private : World :=
  with_WriteFile
    (λ _ path _, if String.eqb path "/data/lua/certs/1.2.3.4/private.pem"
                 then Some ("permission denied", None) else None) calm.

(** The disk refuses the [cert.pem] of the first address and leaves a
    truncated file. *)
Definition no_cert : World :=
  with_WriteFile
    (λ _ path _, if String.eqb path "/data/lua/certs/1.2.3.4/cert.pem"
                 then Some ("no space left on device", Some EmptyString) else None) calm.

(** The probe endpoints answer with an object whose [ip] member is a
    number: [{"ip":1,"swarm":true,"gateway":true}]. *)
Definition mistyped : Body :=
  JSONObject [("ip", JNumber "1"); ("swarm", JBool true); ("gateway", JBool true)].
Definition mistyping : World := with_http_Get (λ _ _, Ok mistyped) calm.

(** The probe endpoints answer with an object whose [gateway] member is a
    number: [{"swarm":true,"gateway":1}]. *)
Definition half_typed : Body :=
  JSONObject [("swarm", JBool true); ("gateway", JNumber "1")].
Definition half_typing : World := with_http_Get (λ _ _, Ok half_typed) calm.

(** The probe endpoints answer with text that is not JSON. *)
Definition babbling : World := with_http_Get (λ _ _, Ok NotJSON) calm.

Definition no_private_run := JoinLuanet no_private qm123 1 boot.
Definition no_cert_run := JoinLuanet no_cert qm123 1 boot.
End Example.

(** ** More worlds *)

Module Scenario.
Import Example.

Definition with_http_Get_Ip (f : nat → string → option Ip) (w : World) : World := {|
  env_Repo_Config := env_Repo_Config w;
  env_DialAddr := env_DialAddr w;
  env_OpenStreamSync := env_OpenStreamSync w;
  env_Now_Unix := env_Now_Unix w;
  env_Sign := env_Sign w;
  env_http_Get_Ip := f;
  env_Encode := env_Encode w;
  env_Decode := env_Decode w;
  env_MkdirAll := env_MkdirAll w;
  env_WriteFile := env_WriteFile w;
  env_GetBandwidthTotals := env_GetBandwidthTotals w;
  env_http_Get := env_http_Get w;
  env_FindServer := env_FindServer w;
  filepath_Join := filepath_Join w;
|}.

(** The node has an IPv4 address and no IPv6 address. *)
Definition v4_only : World :=
  with_http_Get_Ip
    (λ _ url, if String.eqb url "http://ip4.luanet.io" then Some "203.0.113.7" else None)
    calm.

(** The join request of the node [qm123] in that world. *)
Definition v4_request : Proto :=
  {| Service := JoinService;
     Data := DJoinReq
       {| Address := "Qm123"; Ipv4 := "203.0.113.7"; Ipv6 := EmptyString;
          Signature := "sk-qm123|Qm123.1700000000";
          Expires := 1700000000 |} |}.

(** The coordinator asks for a speed test, again and again. *)
Definition speed_command : Proto := {| Service := SpeedTestService; Data := DNil |}.
Definition testing : World := with_Decode (λ _ _, Ok speed_command) calm.

(** The disk refuses the [private.pem] of the second address. *)
Definition second_private_fails : World :=
  with_WriteFile
    (λ _ path _, if String.eqb path "/data/lua/certs/5.6.7.8/private.pem"
                 then Some ("permission denied", None) else None) calm.

(** The probe endpoints answer [{"ip":"203.0.113.7","swarm":true,"gateway":true}]. *)
Definition well_typed : Body :=
  JSONObject [("ip", JString "203.0.113.7"); ("swarm", JBool true); ("gateway", JBool true)].
Definition forwarding : World := with_http_Get (λ _ _, Ok well_typed) calm.

(** A node that is online for the bootstrapper, a library that starts a
    new bootstrapper at each call, and a caller that passes no function. *)
Definition routed : core.Fields unit nat unit :=
  {| core.ctx := None; core.Routing := Some tt; core.Bootstrapper := None |}.
Definition numbered (i : nat) (_ : core.Peers unit) : option nat * option error :=
  (Some i, None).
Definition no_function : core.BootstrapConfig unit :=
  {| core.BootstrapPeers := None |}.
End Scenario.

Arguments bind {_ _ _} _ _ _ /.
Arguments ret {_ _} _ _ /.
Arguments panic {_ _} _ _ /.
Arguments starve {_ _} _ /.
Arguments emit {_} _ _ /.
Arguments get {_} _ /.
Arguments modify {_} _ _ /.
Arguments tick {_} _ /.
Arguments log_Info {_} _ _ /.
Arguments log_Warn {_} _ _ /.
Arguments log_Error {_} _ _ /.
Arguments fmt_Println {_} _ _ /.
Arguments Repo_Config {_} _ _ /.
Arguments quic_DialAddr {_} _ _ _ /.
Arguments conn_OpenStreamSync {_} _ _ /.
Arguments time_Now_Unix {_} _ _ /.
Arguments PrivateKey_Sign {_} _ _ _ _ /.
Arguments gob_Encode {_} _ _ _ _ /.
Arguments gob_Decode {_} _ _ _ /.
Arguments os_MkdirAll {_} _ _ _ /.
Arguments ioutil_WriteFile {_} _ _ _ _ /.
Arguments Reporter_GetBandwidthTotals {_} _ _ /.
Arguments http_Get {_} _ _ _ /.
Arguments deref_Stream {_} _ /.
Arguments ReadQuicMsg {_} _ _ /.
Arguments SendQuicMsg_with {_} _ _ _ _ /.

(** ** Reasoning about runs *)

(** [wp m st Q]: the run of [m] from [st] ends in a result, a state and a
    list of events that satisfy [Q]. *)
Definition wp `{P : ProtoPkg} {A} (m : M A) (st : State)
    (Q : Res A → State → list Event → Prop) : Prop :=
  Q (res_of (m st)) (st_of (m st)) (evs_of (m st)).
Arguments wp : simpl never.

(** ** What a run of [JoinLuanet] guarantees *)

Section Posts.
Context {P : ProtoPkg} (w : World) (n : IpfsNode).

(** The tick only grows, and the [Stream] field is either untouched or
    holds a stream opened and assigned during the run. *)
Definition stream_step (st st' : State) (evs : list Event) : Prop :=
  (now st ≤ now st')%nat ∧
  (Stream st' = Stream st ∨
   ∃ s, Stream st' = Some s ∧ (now st ≤ s < now st')%nat ∧ EAssignStream s ∈ evs).

(** The join was refused: the last event is the decoding of the refusal
    from the stream that the node now holds, which was assigned before. *)
Definition refused_on_new_stream (st st' : State) (evs : list Event) (msg : string) : Prop :=
  ∃ s pre m jr,
    Stream st' = Some s ∧ (now st ≤ s)%nat ∧
    evs = pre ++ [EDecode s (Some m)] ∧ EAssignStream s ∈ pre ∧
    Data m = DJoinRes jr ∧ Success jr = false ∧
    msg = "Failed to join lua network: " +:+ Message jr.

(** The join succeeded: the run ends with the loop over the certificates
    of the answer, and the loop ran to its end. *)
Definition certs_written (st' : State) (evs : list Event) (jr : JoinRes) : Prop :=
  Success jr = true ∧
  ∃ st_m pre evs_w,
    evs = pre ++ evs_w ∧ write_certs w n (Certs jr) st_m = (Ret None, st', evs_w).

Definition JoinPost (st : State) (r : Res (result JoinRes error)) (st' : State)
    (evs : list Event) : Prop :=
  stream_step st st' evs ∧
  Forall is_join_request (encoded evs) ∧
  (∀ msg, r = Ret (Error (Errorf msg)) → refused_on_new_stream st st' evs msg) ∧
  (∀ jr, r = Ret (Ok jr) → certs_written st' evs jr).

(** The last part of [JoinLuanet], from the read of the answer on. *)
Definition join_answer : M (result JoinRes error) :=
  msg ← ReadQuicMsg w;
  match Data msg with
  | DJoinRes joinRes =>
      if negb (Success joinRes) then
        ret (Error (Errorf ("Failed to join lua network: " +:+ Message joinRes)))
      else
        e ← write_certs w n (Certs joinRes);
        match e with
        | Some err => ret (Error err)
        | None => ret (Ok joinRes)
        end
  | _ => panic "interface conversion: interface {} is not proto.JoinRes"
  end.

Definition AnswerPost (st : State) (s : StreamId) (r : Res (result JoinRes error))
    (st' : State) (evs : list Event) : Prop :=
  Stream st' = Some s ∧ (now st ≤ now st')%nat ∧ encoded evs = [] ∧
  (∀ msg, r = Ret (Error (Errorf msg)) →
     ∃ m jr, evs = [EDecode s (Some m)] ∧ Data m = DJoinRes jr ∧ Success jr = false ∧
             msg = "Failed to join lua network: " +:+ Message jr) ∧
  (∀ jr, r = Ret (Ok jr) → certs_written st' evs jr).

(** What a send guarantees when the join it may call guarantees
    [JoinPost]: the first event is the encoding of the envelope, and all
    that is encoded after it is a join request. *)
Definition SendPost (st : State) (s : StreamId) (msg : Proto) (r : Res unit)
    (st' : State) (evs : list Event) : Prop :=
  ∃ ok rest,
    evs = EEncode s msg ok :: rest ∧
    Forall is_join_request (encoded rest) ∧
    stream_step st st' rest ∧
    (ok = true → rest = [] ∧ r = Ret tt ∧ st' = set_now (S (now st)) st).

(** A run that returns, leaves the stream alone and encodes nothing. *)
Definition quiet {A} (st : State) (r : Res A) (st' : State) (evs : list Event) : Prop :=
  (∃ a, r = Ret a) ∧ Stream st' = Stream st ∧ (now st ≤ now st')%nat ∧ encoded evs = [].

(** [cut_of x y]: the run [x] is the run [y], or [x] ran out of fuel. *)
Definition cut_of {A} (x y : Res A * State * list Event) : Prop :=
  res_of x = Starved ∨ x = y.
End Posts.

(** ** What every run of the session code guarantees *)

Section SessionPosts.
Context {P : ProtoPkg} (w : World) (n : IpfsNode).

(** [e] is one step of the loop over the certificates [certs]. *)
Definition cert_event (certs : list (string * ProtoCert)) (e : Event) : Prop :=
  ∃ ip cert ok, (ip, cert) ∈ certs ∧
    (e = EMkdirAll (cert_dir w n ip) ok ∨
     e = EWriteFile (private_pem w n ip) (Privkey (Pems cert)) ok ∨
     e = EWriteFile (cert_pem w n ip) (Cert (Pems cert)) ok).

Definition is_disk_event (e : Event) : Prop :=
  (∃ p ok, e = EMkdirAll p ok) ∨ (∃ p d ok, e = EWriteFile p d ok).

(** All that [evs] does to the disk is a step for a certificate of an
    answer decoded in [evs]. *)
Definition received_only (evs : list Event) : Prop :=
  ∀ e, e ∈ evs → is_disk_event e → cert_event (received_certs evs) e.

(** The traffic of a run follows the field [Stream]. *)
Definition follows (st st' : State) (evs : list Event) : Prop :=
  on_held_stream (Stream st) evs = true ∧ Stream st' = held_after (Stream st) evs.

(** A file that no [WriteFile] names is left as it was. *)
Definition files_framed (st st' : State) (evs : list Event) : Prop :=
  ∀ p, (∀ d ok, EWriteFile p d ok ∉ evs) → files st' !! p = files st !! p.

(** What a run of the session code guarantees when it starts with a
    stream; [base] is 1 for a call of [JoinLuanet] and 0 for a send. *)
Definition SessionPost (base : nat) {A} (st : State) (r : Res A) (st' : State)
    (evs : list Event) : Prop :=
  (∀ reason, r = Panic reason →
     reason = type_assertion_failed ∧
     ∃ x, last (decoded evs) = Some x ∧ is_JoinRes x = false) ∧
  (∀ a, r = Ret a →
     decoded evs = [] ∨ ∃ x, last (decoded evs) = Some x ∧ is_JoinRes x = true) ∧
  (r ≠ Starved → join_calls evs = (base + length (failed_sends evs))%nat) ∧
  follows st st' evs ∧
  received_only evs ∧
  files_framed st st' evs.

(** The loop over the certificates stopped at a directory that could not
    be made or at a [private.pem] that could not be written. *)
Definition disk_failure (certs : list (string * ProtoCert)) (evs : list Event) : Prop :=
  ∃ ip cert, (ip, cert) ∈ certs ∧
    (last evs = Some (EMkdirAll (cert_dir w n ip) false) ∨
     last evs = Some (EWriteFile (private_pem w n ip) (Privkey (Pems cert)) false)).

(** An envelope that [HeartBeat] builds. *)
Definition is_heartbeat (m : Proto) : Prop :=
  ∃ t, m = heartbeat_message (env_GetBandwidthTotals w t).

Definition not_error_line (e : Event) : Prop := ∀ msg, e ≠ ELog "error" msg.
End SessionPosts.

(** * Properties *)

Section Logic.
Context {P : ProtoPkg}.

Lemma run_eta {A} (r : Res A * State * list Event) : r = (res_of r, st_of r, evs_of r).
Proof. by destruct r as [[? ?] ?]. Qed.

Lemma wp_ret {A} (a : A) st Q : Q (Ret a) st [] → wp (ret a) st Q.
Proof. done. Qed.

Lemma wp_panic {A} reason st (Q : Res A → _) : Q (Panic reason) st [] → wp (panic reason) st Q.
Proof. done. Qed.

Lemma wp_starve {A} st (Q : Res A → _) : Q Starved st [] → wp starve st Q.
Proof. done. Qed.

Lemma wp_emit e st Q : Q (Ret tt) st [e] → wp (emit e) st Q.
Proof. done. Qed.

Lemma wp_get st Q : Q (Ret st) st [] → wp get st Q.
Proof. done. Qed.

Lemma wp_modify f st Q : Q (Ret tt) (f st) [] → wp (modify f) st Q.
Proof. done. Qed.

Lemma wp_tick st Q : Q (Ret (now st)) (set_now (S (now st)) st) [] → wp tick st Q.
Proof. done. Qed.

Lemma wp_bind {A B} (m : M A) (k : A → M B) st Q :
  wp m st (λ r st1 e1,
    match r with
    | Ret a => wp (k a) st1 (λ r2 st2 e2, Q r2 st2 (e1 ++ e2))
    | Panic reason => Q (Panic reason) st1 e1
    | Starved => Q Starved st1 e1
    end) →
  wp (bind m k) st Q.
Proof.
  unfold wp, res_of, st_of, evs_of. cbn.
  destruct (m st) as [[[a|reason|] st1] e1]; cbn; [|done..].
  by destruct (k a st1) as [[r2 st2] e2].
Qed.

Lemma wp_any {A} (m : M A) st (Q : Res A → State → list Event → Prop) :
  (∀ r st' evs, Q r st' evs) → wp m st Q.
Proof. unfold wp. auto. Qed.

Lemma wp_mono {A} (m : M A) st (Q1 Q2 : Res A → State → list Event → Prop) :
  wp m st Q1 → (∀ r st' evs, Q1 r st' evs → Q2 r st' evs) → wp m st Q2.
Proof. unfold wp. auto. Qed.

Lemma wp_of_run {A} (m : M A) st (Q : Res A → State → list Event → Prop) r st' evs :
  m st = (r, st', evs) → Q r st' evs → wp m st Q.
Proof. unfold wp. by intros ->. Qed.

Lemma wp_run {A} (m : M A) st Q r st' evs :
  m st = (r, st', evs) → wp m st Q → Q r st' evs.
Proof. unfold wp. by intros ->. Qed.

Lemma encoded_app (a b : list Event) : encoded (a ++ b) = encoded a ++ encoded b.
Proof. apply omap_app. Qed.

Lemma signed_app (a b : list Event) : signed (a ++ b) = signed a ++ signed b.
Proof. apply omap_app. Qed.
End Logic.

(** One step of a run: split a [bind], run a primitive of the monad, or
    split on the scrutinee of a [match]. *)
Ltac wp_step :=
  lazymatch goal with
  | |- wp (bind _ _) _ _ => apply wp_bind
  | |- wp (ret _) _ _ => apply wp_ret
  | |- wp (panic _) _ _ => apply wp_panic
  | |- wp starve _ _ => apply wp_starve
  | |- wp (emit _) _ _ => apply wp_emit
  | |- wp get _ _ => apply wp_get
  | |- wp (modify _) _ _ => apply wp_modify
  | |- wp tick _ _ => apply wp_tick
  | |- wp (match lib ?x with _ => _ end) _ _ => destruct x eqn:?; cbn [lib]
  | |- wp (match ?x with _ => _ end) _ _ => destruct x eqn:?
  end;
  cbv beta iota;
  cbn [Stream dirs files now set_Stream set_dirs set_files set_now Data Service Proto_zero].
Ltac wp_steps := repeat wp_step.


(** Run a call for which a lemma [lem] is known: name its result, state
    and events, keep the equation of the run as [E] and what the lemma says
    as [H]. *)
Ltac wp_call lem r st' evs E H :=
  lazymatch goal with
  | |- wp ?m ?st ?Q =>
      destruct (m st) as [[r st'] evs] eqn:E;
      pose proof E as H; eapply wp_run in H; [|eapply lem; eauto];
      cbv beta in H;
      apply (wp_of_run _ _ _ _ _ _ E);
      cbv beta iota
  end.

Ltac join_leaf :=
  unfold JoinPost, stream_step; cbn;
  split; [split; [lia | by left] | split; [constructor | split; intros ? [=]]].

(** Membership in a list of events built with [++] and [::]. *)
Ltac solve_or :=
  first [assumption | reflexivity | (left; solve_or) | (right; solve_or)].
Ltac solve_elem :=
  repeat match goal with H : _ ∈ _ |- _ => revert H end;
  rewrite ?elem_of_app, ?elem_of_cons; first [tauto | solve_or].

Section Basics.
Context {P : ProtoPkg} (w : World) (n : IpfsNode).

(** [GetIpInfo] always returns, and all it does is a [Get]. *)
Lemma GetIpInfo_post version st :
  wp (GetIpInfo w version) st (λ r st' evs, quiet st r st' evs ∧ Forall is_get evs).
Proof.
  unfold GetIpInfo, Repo_Config. wp_steps.
  all: unfold quiet, is_get; cbn; split_and!; eauto 10 with lia.
Qed.

Lemma GetIpInfo_quiet version st : wp (GetIpInfo w version) st (quiet st).
Proof. eapply wp_mono; [apply GetIpInfo_post|]. by intros ??? [??]. Qed.

Lemma joins_before_next_send_gets (pre l : list Event) :
  Forall is_get pre → joins_before_next_send (pre ++ l) = joins_before_next_send l.
Proof. induction 1 as [|e pre (url & ok & ->) _ IH]; [done|]. exact IH. Qed.

Lemma signed_gets (pre : list Event) : Forall is_get pre → signed pre = [].
Proof. induction 1 as [|e pre (url & ok & ->) _ IH]; [done|]. exact IH. Qed.

(** The loop over the certificates always returns, leaves the stream
    alone and encodes nothing; its error is one of the file system. *)
Lemma write_certs_quiet certs st :
  wp (write_certs w n certs) st (λ r st' evs,
    quiet st r st' evs ∧ ∀ e, r = Ret (Some e) → ∃ s, e = LibError s).
Proof.
  revert st. induction certs as [|[ip cert] rest IH]; intros st; cbn [write_certs].
  { wp_steps. unfold quiet. cbn. repeat split; eauto; done. }
  unfold os_MkdirAll, ioutil_WriteFile. wp_steps.
  all: try (eapply wp_mono; [apply IH|]; cbv beta;
            intros r st' evs ((Ha & Hs & Hn & He) & Herr); split; [|done];
            unfold quiet; rewrite ?encoded_app, He; cbn in *;
            split_and!; first [done|lia|congruence]).
  all: unfold quiet; cbn; split_and!; eauto; try lia; intros ? [= <-]; eauto.
Qed.

Lemma join_answer_post st s :
  Stream st = Some s → wp (join_answer w n) st (AnswerPost w n st s).
Proof.
  intros Hs. unfold join_answer, ReadQuicMsg, deref_Stream, gob_Decode, log_Error.
  wp_steps; simplify_eq.
  all: try (unfold AnswerPost; cbn; split_and!; try done; try lia; by intros ? [=]).
  - unfold AnswerPost; cbn. split_and!; try done; try lia.
    intros ? [= <-].
    match goal with H : negb _ = true |- _ => apply negb_true_iff in H end. eauto 10.
  - wp_call write_certs_quiet rw stw ew Ew Hw.
    destruct Hw as (([o ->] & Hsw & Hnw & Hew) & Herr). cbn in Hsw, Hnw.
    match goal with H : negb _ = false |- _ => apply negb_false_iff in H end.
    wp_steps; unfold AnswerPost; rewrite ?encoded_app, ?Hew; cbn.
    + destruct (Herr _ eq_refl) as [? ->].
      split_and!; try done; try lia; try congruence.
    + split_and!; try done; try lia; try congruence.
      intros ? [= <-]. split; [done|]. eexists _, [_], ew. split; [by rewrite app_nil_r|exact Ew].
Qed.

Lemma SendQuicMsg_with_post join msg st s :
  Stream st = Some s →
  (∀ st0, wp join st0 (JoinPost w n st0)) →
  wp (SendQuicMsg_with w join msg) st (SendPost st s msg).
Proof.
  intros Hs Hjoin. unfold SendQuicMsg_with, deref_Stream, gob_Encode, log_Error.
  wp_steps; simplify_eq.
  - wp_call Hjoin rj stj ej Ej Hj.
    destruct Hj as ((Hn & Hstream) & Henc & _).
    cbn [Stream now set_now] in Hn, Hstream.
    assert (SendPost st s msg (match rj with Ret _ => Ret tt | Panic x => Panic x | Starved => Starved end) stj
              ([] ++ ([] ++ [EEncode s msg false] ++ []) ++
               [ELog "error" "Failed to send quic message: %v"] ++ ej)) as HP.
    { exists false, (ELog "error" "Failed to send quic message: %v" :: ej).
      split_and!; [done|done| |done].
      split; [lia|]. destruct Hstream as [?|(s' & ? & [? ?] & ?)]; [by left|right].
      exists s'. split_and!; [done|lia|lia|solve_elem]. }
    destruct rj; wp_steps; rewrite ?app_nil_r; exact HP.
  - exists true, []. unfold stream_step. cbn. split_and!; try done; [lia|by left].
Qed.

Lemma JoinLuanet_post fuel st : wp (JoinLuanet w n fuel) st (JoinPost w n st).
Proof.
  revert st. induction fuel as [|fuel IH]; intros st; cbn [JoinLuanet].
  { wp_steps. join_leaf. }
  match goal with |- context [bind (ReadQuicMsg w) ?k] =>
    change (bind (ReadQuicMsg w) k) with (join_answer w n) end.
  unfold Repo_Config, quic_DialAddr, conn_OpenStreamSync, time_Now_Unix, PrivateKey_Sign,
    log_Info.
  wp_steps; try (by join_leaf).
  wp_call (GetIpInfo_quiet "ip4") r4 st4 e4 E4 H4.
  destruct H4 as ([ip4 ->] & Hs4 & Hn4 & He4). cbv iota.
  wp_steps.
  wp_call (GetIpInfo_quiet "ip6") r6 st6 e6 E6 H6.
  destruct H6 as ([ip6 ->] & Hs6 & Hn6 & He6). cbv iota.
  wp_steps.
  wp_call SendQuicMsg_with_post rs sts es Es Hsend.
  destruct Hsend as (ok & rest & -> & Henc & [Hn Hstream] & _).
  cbn [Stream now set_Stream set_now] in Hs4, Hn4, Hn, Hstream.
  assert (∃ s_b, Stream sts = Some s_b ∧ (now st ≤ s_b < now sts)%nat ∧
                 EAssignStream s_b ∈ EAssignStream (S (S (now st))) :: rest)
    as (s_b & Hsb & Hrange & Hin).
  { destruct Hstream as [?|(s' & ? & ? & ?)];
      [exists (S (S (now st)))|exists s']; split_and!; try done; try lia; solve_elem. }
  match goal with |- context [EEncode _ ?m _] =>
    assert (is_join_request m) as Hmsg by (split; [done|eauto]) end.
  destruct rs.
  - wp_call join_answer_post ra sta ea Ea Ha.
    destruct Ha as (Hsa & Hna & Hea & Href & Hok).
    unfold JoinPost, stream_step. split_and!.
    + lia.
    + right. exists s_b. split_and!; [done|lia|lia|solve_elem].
    + rewrite !encoded_app, He4, He6, Hea. cbn. rewrite app_nil_r. by constructor.
    + intros msg Hr. destruct (Href msg Hr) as (m & jr & -> & Hd & Hsucc & ->).
      eexists s_b, _, m, jr.
      split; [done|]. split; [lia|]. split; [rewrite !app_assoc; reflexivity|].
      split; [solve_elem|done].
    + intros jr Hr. destruct (Hok jr Hr) as (Hsucc & st_m & pre & evs_w & -> & Hw).
      split; [done|]. eexists st_m, _, evs_w. split; [|exact Hw].
      rewrite !app_assoc. reflexivity.
  - unfold JoinPost, stream_step. split_and!; try done.
    + lia.
    + right. exists s_b. split_and!; [done|lia|lia|solve_elem].
    + rewrite !encoded_app, He4, He6. cbn. by constructor.
  - unfold JoinPost, stream_step. split_and!; try done.
    + lia.
    + right. exists s_b. split_and!; [done|lia|lia|solve_elem].
    + rewrite !encoded_app, He4, He6. cbn. by constructor.
Qed.
End Basics.

(** ** Fuel *)

Section Fuel.
Context {P : ProtoPkg} (w : World) (n : IpfsNode).

Lemma cut_of_refl {A} (x : Res A * State * list Event) : cut_of x x.
Proof. by right. Qed.

Lemma cut_of_bind {A B} (m1 m2 : M A) (k1 k2 : A → M B) st :
  cut_of (m1 st) (m2 st) →
  (∀ a st1, cut_of (k1 a st1) (k2 a st1)) →
  cut_of (bind m1 k1 st) (bind m2 k2 st).
Proof.
  intros [Hm|Hm] Hk; unfold cut_of, bind.
  - left. destruct (m1 st) as [[r1 st1] e1]. cbn in Hm. by subst r1.
  - rewrite <- Hm. destruct (m1 st) as [[[a| |] st1] e1]; [|by right..].
    destruct (Hk a st1) as [Hs|Heq].
    + left. destruct (k1 a st1) as [[r st2] e2]. cbn in Hs. by subst r.
    + right. by rewrite Heq.
Qed.

(** More fuel does not change a run that did not run out of fuel. *)
Lemma JoinLuanet_more_fuel fuel st :
  cut_of (JoinLuanet w n fuel st) (JoinLuanet w n (S fuel) st).
Proof.
  revert st. induction fuel as [|fuel IH]; intros st; [by left|].
  cbn [JoinLuanet]. unfold SendQuicMsg_with.
  repeat first
    [ apply IH
    | apply cut_of_refl
    | apply cut_of_bind; [|intros ? ?]
    | match goal with
      | |- cut_of (match ?x with _ => _ end _) _ => destruct x
      end ].
Qed.

Lemma JoinLuanet_enough_fuel fuel fuel' st :
  (fuel ≤ fuel')%nat →
  res_of (JoinLuanet w n fuel st) ≠ Starved →
  JoinLuanet w n fuel' st = JoinLuanet w n fuel st.
Proof.
  intros Hle Hres. induction Hle as [|fuel' Hle IH]; [done|].
  destruct (JoinLuanet_more_fuel fuel' st) as [Hs|Heq].
  - rewrite IH in Hs. done.
  - by rewrite <- Heq.
Qed.
End Fuel.

(** Run a piece of code whose calls to the world are settled by
    hypotheses. *)
Ltac run_step :=
  match goal with
  | H : ?l = _ |- context [?l] => rewrite H
  end.
Ltac run := cbn; repeat (run_step; cbn).

(** Skip the rest of a run when the goal holds whatever it does. *)
Ltac wp_skip :=
  repeat (apply wp_any; intros [?|?|] ? ?; cbv beta iota).

(** ** Receiving and dispatching *)

Section Receive.
Context {P : ProtoPkg} (w : World) (n : IpfsNode).


(** C6.  A command whose tag is not [SpeedTestService] gets no answer:
    the firing of the ticker reads it, encodes nothing and ends
    normally. *)
Theorem CmdHandlers_unknown_tag fuel st s msg :
  Stream st = Some s →
  env_Decode w (now st) s = Ok msg →
  Service msg ≠ SpeedTestService →
  CmdHandlers_tick w n fuel st =
    (Ret tt, set_now (S (now st)) st, [EDecode s (Some msg)]) ∧
  encoded (evs_of (CmdHandlers_tick w n fuel st)) = [].
Proof.
  intros Hs Hd Htag.
  assert (CmdHandlers_tick w n fuel st =
    (Ret tt, set_now (S (now st)) st, [EDecode s (Some msg)])) as Hrun.
  { unfold CmdHandlers_tick. run. by destruct (decide _). }
  by rewrite Hrun.
Qed.
End Receive.


Lemma CmdHandlers_unknown_tag_witness :
  Stream Example.online = Some 0%nat ∧
  env_Decode Example.commanding (now Example.online) 0%nat = Ok Example.unknown_command ∧
  Service Example.unknown_command ≠ SpeedTestService ∧
  encoded (evs_of (CmdHandlers_tick Example.commanding Example.qm123 1 Example.online)) = [].
Proof.
  split_and!; [reflexivity|reflexivity|discriminate|].
  apply (CmdHandlers_unknown_tag Example.commanding Example.qm123 1 Example.online 0%nat
           Example.unknown_command); [reflexivity|reflexivity|discriminate].
Defined.

Section Heartbeat.
Context {P : ProtoPkg} (w : World) (n : IpfsNode).

Lemma set_now_same st : set_now (now st) st = st.
Proof. by destruct st. Qed.

(** All that a send encodes is its own envelope and join requests. *)
Lemma SendQuicMsg_encodes fuel msg st :
  wp (SendQuicMsg w n fuel msg) st (λ _ _ evs,
    Forall (λ m, m = msg ∨ is_join_request m) (encoded evs)).
Proof.
  destruct (Stream st) as [s|] eqn:Hs.
  - eapply wp_mono; [apply (SendQuicMsg_with_post w n); [done|apply JoinLuanet_post]|].
    intros r st' evs (ok & rest & -> & Henc & _). cbn.
    constructor; [by left|]. eapply Forall_impl; [exact Henc|]. by right.
  - unfold SendQuicMsg, SendQuicMsg_with, deref_Stream. wp_steps; simplify_eq.
    constructor.
Qed.

Lemma iterate_encodes (Q : Proto → Prop) (body : M unit) :
  (∀ st, wp body st (λ _ _ evs, Forall Q (encoded evs))) →
  ∀ k st, wp (iterate k body) st (λ _ _ evs, Forall Q (encoded evs)).
Proof.
  intros Hbody. induction k as [|k IH]; intros st; cbn [iterate]; wp_steps.
  { constructor. }
  eapply wp_mono; [apply Hbody|]. intros [[]| |] st1 e1 H1; cbv beta iota.
  - eapply wp_mono; [apply IH|]. intros r2 st2 e2 H2. cbv beta.
    rewrite encoded_app. by apply Forall_app.
  - done.
  - done.
Qed.

(** C9.  Whatever the node stores, every heartbeat envelope handed to
    [Encode] during any number of firings of the ticker reports
    [Storage = 0]. *)
Theorem HeartBeat_storage_zero fuel k st :
  Forall (λ m, ∀ hb, Data m = DHeartBeatReq hb → Storage (HeartBeatReq_Stats hb) = 0)
    (encoded (evs_of (HeartBeat w n fuel k st))).
Proof.
  change (wp (HeartBeat w n fuel k) st (λ _ _ evs,
    Forall (λ m, ∀ hb, Data m = DHeartBeatReq hb → Storage (HeartBeatReq_Stats hb) = 0)
      (encoded evs))).
  apply iterate_encodes. clear st. intros st.
  unfold HeartBeat_tick, Reporter_GetBandwidthTotals. wp_steps.
  eapply wp_mono; [apply SendQuicMsg_encodes|]. cbv beta. intros _ _ evs Hevs.
  eapply Forall_impl; [exact Hevs|]. cbv beta.
  intros m [->|[_ [r Hr]]] hb Hhb.
  - cbn in Hhb. by injection Hhb as <-.
  - congruence.
Qed.

Lemma HeartBeat_tick_run fuel st s :
  Stream st = Some s →
  env_Encode w (S (now st)) s (heartbeat_message (env_GetBandwidthTotals w (now st))) = None →
  HeartBeat_tick w n fuel st =
    (Ret tt, set_now (S (S (now st))) st,
     [EEncode s (heartbeat_message (env_GetBandwidthTotals w (now st))) true]).
Proof.
  intros Hs He. unfold HeartBeat_tick, SendQuicMsg. run. reflexivity.
Qed.

(** C7.  On a stream on which every send succeeds, [k] firings of the
    ticker hand [k] envelopes to [Encode], and the envelope of each firing
    carries the totals that the bandwidth counter gave at that firing. *)
Theorem HeartBeat_fidelity fuel k st s :
  Stream st = Some s →
  (∀ t m, env_Encode w t s m = None) →
  HeartBeat w n fuel k st =
    (Ret tt, set_now (now st + 2 * k) st,
     map (λ i, EEncode s (heartbeat_message (env_GetBandwidthTotals w (now st + 2 * i))) true)
         (seq 0 k)).
Proof.
  intros Hs Henc. revert st Hs. induction k as [|k IH]; intros st Hs.
  { cbn. by rewrite Nat.add_0_r, set_now_same. }
  unfold HeartBeat in *. cbn [iterate]. unfold bind.
  rewrite (HeartBeat_tick_run fuel st s Hs (Henc _ _)).
  rewrite (IH (set_now (S (S (now st))) st) Hs). cbn [now set_now].
  f_equal; [f_equal|].
  - replace (S (S (now st)) + 2 * k)%nat with (now st + 2 * S k)%nat by lia. done.
  - cbn [seq map app]. rewrite Nat.add_0_r. f_equal.
    rewrite <- seq_shift, map_map. apply map_ext. intros i.
    by replace (S (S (now st)) + 2 * i)%nat with (now st + 2 * S i)%nat by lia.
Qed.
End Heartbeat.

Lemma HeartBeat_fidelity_witness :
  Stream Example.online = Some 0%nat ∧
  (∀ t m, env_Encode Example.calm t 0%nat m = None) ∧
  encoded (evs_of (HeartBeat Example.calm Example.qm123 1 2 Example.online)) =
    [ {| Service := HeartBeatService;
         Data := DHeartBeatReq {| HeartBeatReq_Stats :=
           {| Storage := 0; StatsIn := 100; StatsOut := 50;
              Ingress := 10%float; Egress := 5%float |} |} |};
      {| Service := HeartBeatService;
         Data := DHeartBeatReq {| HeartBeatReq_Stats :=
           {| Storage := 0; StatsIn := 150; StatsOut := 70;
              Ingress := 12%float; Egress := 6%float |} |} |} ].
Proof.
  split_and!; [reflexivity|reflexivity|].
  rewrite (HeartBeat_fidelity Example.calm Example.qm123 1 2 Example.online 0%nat
             eq_refl (λ _ _, eq_refl)).
  reflexivity.
Defined.

(** ** The join *)

Section Join.
Context {P : ProtoPkg} (w : World) (n : IpfsNode).

(** C10.  [JoinLuanet] assigns the stream it opened to the [Stream]
    field before it reads the answer.  When it returns the error of a
    refused join, the last thing it did was to decode the refusal from the
    stream [s] that the field now holds; [s] was opened during this call
    and assigned before the decoding, and the stream the node held before
    the call is not put back. *)
Theorem JoinLuanet_refused_keeps_new_stream fuel st msg :
  res_of (JoinLuanet w n fuel st) = Ret (Error (Errorf msg)) →
  ∃ s pre m jr,
    Stream (st_of (JoinLuanet w n fuel st)) = Some s ∧
    (now st ≤ s)%nat ∧
    evs_of (JoinLuanet w n fuel st) = pre ++ [EDecode s (Some m)] ∧
    EAssignStream s ∈ pre ∧
    Data m = DJoinRes jr ∧ Success jr = false ∧
    msg = "Failed to join lua network: " +:+ Message jr ∧
    ∀ s0, Stream st = Some s0 → (s0 < now st)%nat →
          Stream (st_of (JoinLuanet w n fuel st)) ≠ Stream st.
Proof.
  intros Hres.
  destruct (JoinLuanet_post w n fuel st) as (_ & _ & Href & _).
  destruct (Href msg Hres) as (s & pre & m & jr & Hs & Hn & Hevs & Hin & Hd & Hsucc & Hmsg).
  exists s, pre, m, jr. split_and!; try done.
  intros s0 Hs0 Hlt. rewrite Hs, Hs0. intros [= ->]. lia.
Qed.

(** One round of the loop over the certificates that did not return. *)
Lemma write_certs_cons_inv ip cert rest st st' evs :
  write_certs w n ((ip, cert) :: rest) st = (Ret None, st', evs) →
  ∃ ok st3 evs_rest,
    evs = [EMkdirAll (cert_dir w n ip) true;
           EWriteFile (private_pem w n ip) (Privkey (Pems cert)) true;
           EWriteFile (cert_pem w n ip) (Cert (Pems cert)) ok] ++ evs_rest ∧
    write_certs w n rest st3 = (Ret None, st', evs_rest) ∧
    dirs st3 = {[cert_dir w n ip]} ∪ dirs st ∧
    (∀ p, p ≠ cert_pem w n ip →
          files st3 !! p = <[private_pem w n ip := Privkey (Pems cert)]> (files st) !! p) ∧
    (ok = true → files st3 !! cert_pem w n ip = Some (Cert (Pems cert))).
Proof.
  cbn. intros H.
  destruct (env_MkdirAll w (now st) _) as [e|]; cbn in H; [done|].
  destruct (env_WriteFile w (S (now st)) _ _) as [[e junk]|]; cbn in H.
  { by destruct junk. }
  destruct (env_WriteFile w (S (S (now st))) _ _) as [[e [junk|]]|]; cbn in H.
  all: match type of H with context [write_certs w n ?l ?s] =>
         destruct (write_certs w n l s) as [[r s'] e'] eqn:Hrest end.
  all: cbn in H; injection H as -> -> <-.
  all: eexists _, _, _; split_and!; [reflexivity|exact Hrest|done| |]; cbn; try done.
  - intros p Hp. by rewrite lookup_insert_ne.
  - intros p Hp. by rewrite lookup_insert_ne.
  - intros _. by rewrite lookup_insert_eq.
Qed.

(** When the loop runs to its end, every entry has its directory and its
    [private.pem]; it has its [cert.pem] too, unless the write of that file
    failed.  No other file changed. *)
Lemma write_certs_files certs st st' evs :
  write_certs w n certs st = (Ret None, st', evs) →
  NoDup (cert_files w n certs) →
  (∀ ip cert, (ip, cert) ∈ certs →
     cert_dir w n ip ∈ dirs st' ∧
     files st' !! private_pem w n ip = Some (Privkey (Pems cert)) ∧
     (files st' !! cert_pem w n ip = Some (Cert (Pems cert)) ∨
      EWriteFile (cert_pem w n ip) (Cert (Pems cert)) false ∈ evs)) ∧
  dirs st ⊆ dirs st' ∧
  (∀ p, p ∉ cert_files w n certs → files st' !! p = files st !! p).
Proof.
  revert st evs. induction certs as [|[ip cert] rest IH]; intros st evs Hrun Hnd.
  { cbn in Hrun. injection Hrun as <- <-. split_and!; [|done|done].
    intros ip cert Hin. by apply elem_of_nil in Hin. }
  apply write_certs_cons_inv in Hrun
    as (ok & st3 & evs_rest & -> & Hrest & Hdirs & Hfiles & Hcert).
  cbn [cert_files flat_map fst app] in Hnd.
  apply NoDup_cons in Hnd as [Hp Hnd]. apply NoDup_cons in Hnd as [Hc Hnd].
  destruct (IH st3 evs_rest Hrest Hnd) as (Hentries & Hsub & Hframe).
  fold (cert_files w n rest) in *.
  apply not_elem_of_cons in Hp as [Hpc Hp].
  split_and!.
  - intros ip' cert' Hin. apply elem_of_cons in Hin as [[= -> ->]|Hin].
    + split_and!.
      * apply Hsub. rewrite Hdirs. by apply elem_of_union_l, elem_of_singleton.
      * rewrite Hframe, Hfiles by done. by rewrite lookup_insert_eq.
      * destruct ok; [left|right; solve_elem].
        rewrite Hframe by done. by apply Hcert.
    + destruct (Hentries ip' cert' Hin) as (Hd' & Hp' & Hc').
      split_and!; [done|done|]. destruct Hc' as [?|?]; [by left|right; solve_elem].
  - etrans; [|exact Hsub]. rewrite Hdirs. apply union_subseteq_r.
  - intros p Hp'. cbn [cert_files flat_map fst app] in Hp'.
    fold (cert_files w n rest) in Hp'.
    apply not_elem_of_cons in Hp' as [Hp1 Hp']. apply not_elem_of_cons in Hp' as [Hp2 Hp'].
    rewrite Hframe, Hfiles by done. by rewrite lookup_insert_ne.
Qed.


End Join.

Lemma JoinLuanet_refused_keeps_new_stream_witness :
  res_of (JoinLuanet Example.refusing Example.qm123 1 Example.online) =
    Ret (Error (Errorf "Failed to join lua network: bad signature")) ∧
  Stream Example.online = Some 0%nat ∧
  Stream (st_of (JoinLuanet Example.refusing Example.qm123 1 Example.online)) ≠
    Stream Example.online.
Proof.
  split_and!; [vm_compute; reflexivity|reflexivity|].
  destruct (JoinLuanet_refused_keeps_new_stream Example.refusing Example.qm123 1
              Example.online "Failed to join lua network: bad signature")
    as (s & pre & m & jr & _ & _ & _ & _ & _ & _ & _ & Hold).
  { vm_compute. reflexivity. }
  apply (Hold 0%nat); [reflexivity|cbn; lia].
Defined.


(** The paths of this witness, spelled out. *)
Lemma witness_paths :
  cert_dir Example.calm Example.qm123 "1.2.3.4" = "/data/lua/certs/1.2.3.4" ∧
  private_pem Example.calm Example.qm123 "1.2.3.4" = "/data/lua/certs/1.2.3.4/private.pem" ∧
  cert_pem Example.calm Example.qm123 "1.2.3.4" = "/data/lua/certs/1.2.3.4/cert.pem" ∧
  cert_dir Example.calm Example.qm123 "5.6.7.8" = "/data/lua/certs/5.6.7.8" ∧
  private_pem Example.calm Example.qm123 "5.6.7.8" = "/data/lua/certs/5.6.7.8/private.pem" ∧
  cert_pem Example.calm Example.qm123 "5.6.7.8" = "/data/lua/certs/5.6.7.8/cert.pem".
Proof. vm_compute. done. Qed.

(** ** The certificates *)

Section Certificates.
Context {P : ProtoPkg} (w : World) (n : IpfsNode).

(** C2, as the code has it.  In a round of the loop over the
    certificates of [JoinLuanet], whose error is the error that the join
    returns:
    - a failure to create the directory ends the loop with that error,
      and nothing is written;
    - a failure to write [private.pem] ends the loop with that error:
      [cert.pem] is not attempted and the other entries are skipped;
    - a failure to write [cert.pem] is dropped without a log line: the
      loop goes on with the other entries, and [private.pem] keeps the
      private key. *)
Theorem write_certs_failure_policy ip cert rest st :
  private_pem w n ip ≠ cert_pem w n ip →
  (∀ e, env_MkdirAll w (now st) (cert_dir w n ip) = Some e →
     res_of (write_certs w n ((ip, cert) :: rest) st) = Ret (Some (LibError e)) ∧
     evs_of (write_certs w n ((ip, cert) :: rest) st) =
       [EMkdirAll (cert_dir w n ip) false]) ∧
  (env_MkdirAll w (now st) (cert_dir w n ip) = None →
   ∀ e junk,
     env_WriteFile w (1 + now st) (private_pem w n ip) (Privkey (Pems cert)) = Some (e, junk) →
     res_of (write_certs w n ((ip, cert) :: rest) st) = Ret (Some (LibError e)) ∧
     evs_of (write_certs w n ((ip, cert) :: rest) st) =
       [EMkdirAll (cert_dir w n ip) true;
        EWriteFile (private_pem w n ip) (Privkey (Pems cert)) false]) ∧
  (env_MkdirAll w (now st) (cert_dir w n ip) = None →
   env_WriteFile w (1 + now st) (private_pem w n ip) (Privkey (Pems cert)) = None →
   ∀ e junk,
     env_WriteFile w (2 + now st) (cert_pem w n ip) (Cert (Pems cert)) = Some (e, junk) →
     ∃ st3,
       cert_dir w n ip ∈ dirs st3 ∧
       files st3 !! private_pem w n ip = Some (Privkey (Pems cert)) ∧
       res_of (write_certs w n ((ip, cert) :: rest) st) = res_of (write_certs w n rest st3) ∧
       st_of (write_certs w n ((ip, cert) :: rest) st) = st_of (write_certs w n rest st3) ∧
       evs_of (write_certs w n ((ip, cert) :: rest) st) =
         [EMkdirAll (cert_dir w n ip) true;
          EWriteFile (private_pem w n ip) (Privkey (Pems cert)) true;
          EWriteFile (cert_pem w n ip) (Cert (Pems cert)) false] ++
         evs_of (write_certs w n rest st3)).
Proof.
  intros Hne. split_and!.
  - intros e Hm. run. done.
  - intros Hm e junk Hp. cbn in Hp. run. by destruct junk.
  - intros Hm Hp e junk Hc. cbn in Hp, Hc. run.
    destruct junk as [junk|]; cbn.
    + match goal with |- context [write_certs w n rest ?s] => exists s end.
      split_and!.
      * cbn. by apply elem_of_union_l, elem_of_singleton.
      * cbn. by rewrite lookup_insert_ne, lookup_insert_eq.
      * by destruct (write_certs w n rest _) as [[[]] ?].
      * by destruct (write_certs w n rest _) as [[[]] ?].
      * by destruct (write_certs w n rest _) as [[[]] ?].
    + match goal with |- context [write_certs w n rest ?s] => exists s end.
      split_and!.
      * cbn. by apply elem_of_union_l, elem_of_singleton.
      * cbn. by rewrite lookup_insert_eq.
      * by destruct (write_certs w n rest _) as [[[]] ?].
      * by destruct (write_certs w n rest _) as [[[]] ?].
      * by destruct (write_certs w n rest _) as [[[]] ?].
Qed.
End Certificates.

(** C2 as the spec states it fails: when the disk refuses the first
    [private.pem], the join returns the error of the write, the [cert.pem]
    of that address and both files of the other address are never
    attempted, and no log line reports the failure. *)
Lemma private_pem_failure_aborts_join :
  res_of Example.no_private_run = Ret (Error (LibError "permission denied")) ∧
  written (evs_of Example.no_private_run) =
    [("/data/lua/certs/1.2.3.4/private.pem", "KEY-1", false)] ∧
  complaints (evs_of Example.no_private_run) = [].
Proof. vm_compute. done. Qed.

(** A failure of [cert.pem] is dropped in silence and the join still
    succeeds. *)
Lemma cert_pem_failure_is_silent :
  res_of Example.no_cert_run = Ret (Ok Example.welcome) ∧
  complaints (evs_of Example.no_cert_run) = [] ∧
  files (st_of Example.no_cert_run) !! "/data/lua/certs/1.2.3.4/private.pem" =
    Some "KEY-1" ∧
  files (st_of Example.no_cert_run) !! "/data/lua/certs/1.2.3.4/cert.pem" =
    Some EmptyString ∧
  files (st_of Example.no_cert_run) !! "/data/lua/certs/5.6.7.8/cert.pem" =
    Some "CERT-2".
Proof. vm_compute. done. Qed.

Lemma write_certs_failure_policy_witness :
  private_pem Example.no_cert Example.qm123 "1.2.3.4" ≠
    cert_pem Example.no_cert Example.qm123 "1.2.3.4" ∧
  env_MkdirAll Example.no_cert (now Example.boot)
    (cert_dir Example.no_cert Example.qm123 "1.2.3.4") = None ∧
  env_WriteFile Example.no_cert (1 + now Example.boot)
    (private_pem Example.no_cert Example.qm123 "1.2.3.4") "KEY-1" = None ∧
  env_WriteFile Example.no_cert (2 + now Example.boot)
    (cert_pem Example.no_cert Example.qm123 "1.2.3.4") "CERT-1" =
    Some ("no space left on device", Some EmptyString) ∧
  ∃ st3,
    files st3 !! private_pem Example.no_cert Example.qm123 "1.2.3.4" = Some "KEY-1" ∧
    res_of (write_certs Example.no_cert Example.qm123 [("1.2.3.4", Example.cert1)]
              Example.boot) =
      res_of (write_certs Example.no_cert Example.qm123 [] st3).
Proof.
  assert (private_pem Example.no_cert Example.qm123 "1.2.3.4" ≠
          cert_pem Example.no_cert Example.qm123 "1.2.3.4") as Hne
    by (vm_compute; discriminate).
  split; [exact Hne|]. split; [reflexivity|]. split; [reflexivity|]. split; [reflexivity|].
  destruct (write_certs_failure_policy Example.no_cert Example.qm123 "1.2.3.4"
              Example.cert1 [] Example.boot Hne) as (_ & _ & Hthird).
  destruct (Hthird eq_refl eq_refl "no space left on device" (Some EmptyString) eq_refl)
    as (st3 & _ & Hfile & Hres & _).
  exists st3. split; [exact Hfile|exact Hres].
Defined.

(** ** Sending *)

Section Send.
Context {P : ProtoPkg} (w : World) (n : IpfsNode).

(** A call of [JoinLuanet] is the only call of it until its own send. *)
Lemma JoinLuanet_one_join_before_send fuel st :
  wp (JoinLuanet w n (S fuel)) st (λ _ _ evs, joins_before_next_send evs = 1%nat).
Proof.
  cbn [JoinLuanet].
  unfold Repo_Config, quic_DialAddr, conn_OpenStreamSync, time_Now_Unix, PrivateKey_Sign,
    log_Info, SendQuicMsg_with, deref_Stream, gob_Encode.
  wp_steps; try done.
  wp_call (GetIpInfo_post w "ip4") r4 st4 e4 E4 H4.
  destruct H4 as (([ip4 ->] & _) & Hg4). cbv iota.
  wp_steps.
  wp_call (GetIpInfo_post w "ip6") r6 st6 e6 E6 H6.
  destruct H6 as (([ip6 ->] & _) & Hg6). cbv iota.
  wp_steps; wp_skip.
  all: cbn; rewrite !joins_before_next_send_gets by done; done.
Qed.

(** C1, as the code has it.  When [Encode] fails, [SendQuicMsg] logs the
    failure and calls [JoinLuanet] once.  Whatever the join returns, also
    an error, is dropped: the send returns normally, in the state the join
    left.  No join is called between that call and the next [Encode], and
    every envelope encoded after the failure is a join request: the
    envelope that failed is not sent again. *)
Theorem SendQuicMsg_failure_rejoins_once fuel msg st s e :
  Stream st = Some s →
  env_Encode w (now st) s msg = Some e →
  SendQuicMsg w n (S fuel) msg st =
    (match res_of (JoinLuanet w n (S fuel) (set_now (S (now st)) st)) with
     | Ret _ => Ret tt
     | Panic reason => Panic reason
     | Starved => Starved
     end,
     st_of (JoinLuanet w n (S fuel) (set_now (S (now st)) st)),
     EEncode s msg false :: ELog "error" "Failed to send quic message: %v" ::
       evs_of (JoinLuanet w n (S fuel) (set_now (S (now st)) st))) ∧
  joins_before_next_send (evs_of (JoinLuanet w n (S fuel) (set_now (S (now st)) st))) = 1%nat ∧
  Forall is_join_request (encoded (evs_of (JoinLuanet w n (S fuel) (set_now (S (now st)) st)))).
Proof.
  intros Hs He. split_and!.
  - unfold SendQuicMsg. cbn -[JoinLuanet]. rewrite Hs. cbn -[JoinLuanet].
    rewrite He. cbn -[JoinLuanet].
    destruct (JoinLuanet w n (S fuel) (set_now (S (now st)) st)) as [[[r| |] st'] evs];
      cbn; by rewrite ?app_nil_r.
  - apply JoinLuanet_one_join_before_send.
  - apply (JoinLuanet_post w n (S fuel)).
Qed.
End Send.

(** C1 as the spec states it fails: the stream is broken and the
    coordinator cannot be dialled, so the send fails and the join it calls
    returns an error; the send drops that error and returns normally. *)
Lemma join_error_is_dropped :
  env_Encode Example.broken_link (now Example.online) 0%nat
    (heartbeat_message Example.totals1) = Some "stream closed" ∧
  res_of (JoinLuanet Example.broken_link Example.qm123 1 (set_now 2 Example.online)) =
    Ret (Error (LibError "no recent network activity")) ∧
  res_of (SendQuicMsg Example.broken_link Example.qm123 1
            (heartbeat_message Example.totals1) Example.online) = Ret tt.
Proof. vm_compute. done. Qed.

(** When every send fails and every dial succeeds, the send and the join
    call each other without end: whatever the fuel, the run uses it up. *)
Lemma failing_sends_starve_join fuel st :
  res_of (JoinLuanet Example.mute Example.qm123 fuel st) = Starved.
Proof.
  revert st. induction fuel as [|fuel IH]; intros st; [done|].
  cbn.
  match goal with |- context [JoinLuanet _ _ fuel ?s] =>
    specialize (IH s); destruct (JoinLuanet Example.mute Example.qm123 fuel s)
      as [[r' st'] evs'] end.
  cbn in IH. by subst r'.
Qed.

Lemma failing_sends_starve fuel msg st s :
  Stream st = Some s →
  res_of (SendQuicMsg Example.mute Example.qm123 fuel msg st) = Starved.
Proof.
  intros Hs. unfold SendQuicMsg. cbn -[JoinLuanet]. rewrite Hs. cbn -[JoinLuanet].
  pose proof (failing_sends_starve_join fuel (set_now (S (now st)) st)) as H.
  destruct (JoinLuanet Example.mute Example.qm123 fuel _) as [[r' st'] evs'].
  cbn in H. by subst r'.
Qed.

Lemma SendQuicMsg_failure_rejoins_once_witness :
  Stream Example.online = Some 0%nat ∧
  env_Encode Example.broken_link (now Example.online) 0%nat
    (heartbeat_message Example.totals1) = Some "stream closed" ∧
  SendQuicMsg Example.broken_link Example.qm123 1 (heartbeat_message Example.totals1)
    Example.online =
    (Ret tt, set_now 4 Example.online,
     [EEncode 0%nat (heartbeat_message Example.totals1) false;
      ELog "error" "Failed to send quic message: %v";
      ECall_JoinLuanet;
      ELog "info" "Connecting to node address: api.luanet.io:4242";
      EDialAddr "api.luanet.io:4242" false]).
Proof.
  split_and!; [reflexivity|reflexivity|].
  destruct (SendQuicMsg_failure_rejoins_once Example.broken_link Example.qm123 0
              (heartbeat_message Example.totals1) Example.online 0%nat "stream closed"
              eq_refl eq_refl) as (Hrun & _ & _).
  rewrite Hrun. vm_compute. reflexivity.
Defined.

(** ** The signature *)

Section Signature.
Context {P : ProtoPkg} (w : World) (n : IpfsNode).

Lemma add64_exact (a b : Z) : - 2 ^ 63 ≤ a + b < 2 ^ 63 → add64 a b = a + b.
Proof.
  intros H. unfold add64, wrap64.
  rewrite Z.mod_small; lia.
Qed.

(** C4.  A join that gets as far as the signature signs the bytes of
    [Identity.String()], a dot and the decimal digits of
    [expires = now + ExpiresTime]; it signs nothing before, and the first
    envelope it encodes is the join request that carries [expires] and the
    signature of these bytes.  For a signature scheme whose signatures
    verify, and verify only over the bytes that were signed, the signature
    of the request verifies over these bytes and over no others. *)
Theorem JoinLuanet_signs_identity_and_expiry
    (GetPublic : string → string) (Verify : string → string → string → bool)
    fuel st cfg sig :
  (∀ t key bytes s, env_Sign w t key bytes = Ok s → Verify (GetPublic key) bytes s = true) →
  (∀ pub bytes1 bytes2 s,
     Verify pub bytes1 s = true → Verify pub bytes2 s = true → bytes1 = bytes2) →
  env_Repo_Config w (now st) = Ok cfg →
  env_DialAddr w (1 + now st) (Api (Config_Luanet cfg)) = None →
  env_OpenStreamSync w (2 + now st) = None →
  env_Sign w (4 + now st) (PrivateKey n)
    (Identity n +:+ "." +:+
     FormatInt10 (add64 (env_Now_Unix w (3 + now st)) (ExpiresTime (Config_Luanet cfg)))) =
    Ok sig →
  ∃ ip4 ip6 signed_later encoded_later,
    signed (evs_of (JoinLuanet w n (S fuel) st)) =
      (Identity n +:+ "." +:+
       FormatInt10 (add64 (env_Now_Unix w (3 + now st)) (ExpiresTime (Config_Luanet cfg))))
      :: signed_later ∧
    encoded (evs_of (JoinLuanet w n (S fuel) st)) =
      {| Service := JoinService;
         Data := DJoinReq
           {| Address := Identity n; Ipv4 := ip4; Ipv6 := ip6; Signature := sig;
              Expires := add64 (env_Now_Unix w (3 + now st))
                           (ExpiresTime (Config_Luanet cfg)) |} |}
      :: encoded_later ∧
    Verify (GetPublic (PrivateKey n))
      (Identity n +:+ "." +:+
       FormatInt10 (add64 (env_Now_Unix w (3 + now st)) (ExpiresTime (Config_Luanet cfg))))
      sig = true ∧
    ∀ other, Verify (GetPublic (PrivateKey n)) other sig = true →
      other = Identity n +:+ "." +:+
              FormatInt10 (add64 (env_Now_Unix w (3 + now st))
                             (ExpiresTime (Config_Luanet cfg))).
Proof.
  intros Hsound Hbind Hc Hd Ho Hs. cbn [Nat.add] in Hd, Ho, Hs |- *.
  pose proof (Hsound _ _ _ _ Hs) as Hv.
  match type of Hs with env_Sign _ _ _ ?bytes = _ =>
    cut (wp (JoinLuanet w n (S fuel)) st (λ _ _ evs,
           ∃ ip4 ip6 signed_later encoded_later,
             signed evs = bytes :: signed_later ∧
             encoded evs =
               {| Service := JoinService;
                  Data := DJoinReq
                    {| Address := Identity n; Ipv4 := ip4; Ipv6 := ip6; Signature := sig;
                       Expires := add64 (env_Now_Unix w (S (S (S (now st)))))
                                    (ExpiresTime (Config_Luanet cfg)) |} |}
               :: encoded_later))
  end.
  { intros (ip4 & ip6 & sl & el & H1 & H2). exists ip4, ip6, sl, el.
    split_and!; [done|done|done|]. intros other Hother. by eapply Hbind. }
  cbn [JoinLuanet].
  unfold Repo_Config, quic_DialAddr, conn_OpenStreamSync, time_Now_Unix, PrivateKey_Sign,
    log_Info, SendQuicMsg_with, deref_Stream, gob_Encode.
  repeat (wp_step; simplify_eq).
  wp_call (GetIpInfo_post w "ip4") r4 st4 e4 E4 H4.
  destruct H4 as (([ip4 ->] & _ & _ & He4) & Hg4%signed_gets). cbv iota.
  wp_steps.
  wp_call (GetIpInfo_post w "ip6") r6 st6 e6 E6 H6.
  destruct H6 as (([ip6 ->] & _ & _ & He6) & Hg6%signed_gets). cbv iota.
  repeat (wp_step; simplify_eq); wp_skip;
    eexists _, _, _, _;
    rewrite ?signed_app, ?encoded_app, ?He4, ?He6, ?Hg4, ?Hg6; cbn; split; reflexivity.
Qed.
End Signature.

Lemma toy_verify_sound t key bytes s :
  env_Sign Example.calm t key bytes = Ok s →
  Example.toy_verify (Example.toy_public key) bytes s = true.
Proof. intros [= <-]. apply String.eqb_refl. Qed.

Lemma append_inj_r (a b c : string) : a +:+ b = a +:+ c → b = c.
Proof. induction a as [|x a IH]; cbn; [done|]. intros [= H]. by apply IH. Qed.

Lemma toy_verify_binding pub bytes1 bytes2 s :
  Example.toy_verify pub bytes1 s = true →
  Example.toy_verify pub bytes2 s = true → bytes1 = bytes2.
Proof.
  unfold Example.toy_verify, Example.toy_sign.
  intros H1%String.eqb_eq H2%String.eqb_eq. subst s.
  apply append_inj_r in H2. by apply append_inj_r in H2.
Qed.

Lemma JoinLuanet_signs_identity_and_expiry_witness :
  env_Repo_Config Example.calm (now Example.boot) = Ok Example.cfg ∧
  env_DialAddr Example.calm (1 + now Example.boot) "api.luanet.io:4242" = None ∧
  env_OpenStreamSync Example.calm (2 + now Example.boot) = None ∧
  env_Sign Example.calm (4 + now Example.boot) "sk-qm123" "Qm123.1700000000" =
    Ok "sk-qm123|Qm123.1700000000" ∧
  ∃ ip4 ip6 signed_later encoded_later,
    signed (evs_of (JoinLuanet Example.calm Example.qm123 1 Example.boot)) =
      "Qm123.1700000000" :: signed_later ∧
    encoded (evs_of (JoinLuanet Example.calm Example.qm123 1 Example.boot)) =
      {| Service := JoinService;
         Data := DJoinReq
           {| Address := "Qm123"; Ipv4 := ip4; Ipv6 := ip6;
              Signature := "sk-qm123|Qm123.1700000000";
              Expires := 1700000000 |} |} :: encoded_later ∧
    Example.toy_verify "sk-qm123" "Qm123.1700000000" "sk-qm123|Qm123.1700000000" = true ∧
    ∀ other, Example.toy_verify "sk-qm123" other "sk-qm123|Qm123.1700000000" = true →
             other = "Qm123.1700000000".
Proof.
  split_and!; [reflexivity..|].
  exact (JoinLuanet_signs_identity_and_expiry Example.calm Example.qm123
           Example.toy_public Example.toy_verify 0 Example.boot Example.cfg
           "sk-qm123|Qm123.1700000000"
           toy_verify_sound toy_verify_binding eq_refl eq_refl eq_refl eq_refl).
Defined.

(** ** The probes *)

Section Probes.
Context {P : ProtoPkg} (w : World).

(** A lookup that cannot be made is reported as closed, by both
    versions of the probe. *)
Lemma node_probe_unreachable version tag URL st e :
  env_http_Get w (now st) URL = Error e →
  node.probe w version tag URL st =
    (Ret IpTest_zero, set_now (S (now st)) st,
     [EGet URL false; ELog "warn" ("Failed to check " +:+ version +:+ " port forwarding.")]).
Proof. intros H. unfold node.probe. run. done. Qed.

Lemma cmd_old_probe_unreachable version tag URL st e :
  env_http_Get w (now st) URL = Error e →
  cmd_old.probe w version tag URL st =
    (Ret false, set_now (S (now st)) st,
     [EGet URL false; ELog "warn" ("Failed to check " +:+ version +:+ " port forwarding.")]).
Proof. intros H. unfold cmd_old.probe. run. done. Qed.

(** A body that is not JSON is reported as closed, by both versions. *)
Lemma node_probe_not_json version tag URL st :
  env_http_Get w (now st) URL = Ok NotJSON →
  res_of (node.probe w version tag URL st) = Ret IpTest_zero.
Proof. intros H. unfold node.probe. run. done. Qed.

(** When the decoding fails, the probe of the older command answers
    closed, whatever was decoded. *)
Lemma cmd_old_probe_decode_error version tag URL st body cResp err :
  env_http_Get w (now st) URL = Ok body →
  json_Decode_IpTest body IpTest_zero = (cResp, Some err) →
  res_of (cmd_old.probe w version tag URL st) = Ret false.
Proof. intros H Hd. unfold cmd_old.probe. run. done. Qed.

(** When the decoding fails, the probe of [core/node] answers with
    whatever was decoded before the failure. *)
Lemma node_probe_decode_error version tag URL st body cResp err :
  env_http_Get w (now st) URL = Ok body →
  json_Decode_IpTest body IpTest_zero = (cResp, Some err) →
  res_of (node.probe w version tag URL st) = Ret cResp.
Proof. intros H Hd. unfold node.probe. run. done. Qed.

(** [NodeTest] always returns a result: no failure of a probe or of a
    speed test is raised. *)
Lemma NodeTest_returns st : ∃ result, res_of (node.NodeTest w st) = Ret result.
Proof.
  cut (wp (node.NodeTest w) st (λ r _ _, ∃ result, r = Ret result)); [done|].
  unfold node.NodeTest, node.ipv4Test, node.ipv6Test, node.probe, http_Get, log_Warn,
    log_Error, node.testDownload, node.testUpload, node.showSpeedResult, fmt_Println.
  wp_steps; eauto.
Qed.

(** When both lookups cannot be made, [NodeTest] reports both versions
    as closed. *)
Lemma NodeTest_unreachable st e4 e6 :
  env_http_Get w (now st) "http://ip4.luanet.io" = Error e4 →
  env_http_Get w (S (now st)) "http://ip6.luanet.io" = Error e6 →
  ∃ result,
    res_of (node.NodeTest w st) = Ret result ∧
    Ports result !! "v4" = Some IpTest_zero ∧
    Ports result !! "v6" = Some IpTest_zero.
Proof.
  intros H4 H6.
  cut (wp (node.NodeTest w) st (λ r _ _, ∃ result,
         r = Ret result ∧ Ports result !! "v4" = Some IpTest_zero ∧
         Ports result !! "v6" = Some IpTest_zero)); [done|].
  unfold node.NodeTest, node.ipv4Test, node.ipv6Test, node.probe, http_Get, log_Warn,
    log_Error, node.testDownload, node.testUpload, node.showSpeedResult, fmt_Println.
  repeat (wp_step; simplify_eq; try by eauto).
Qed.
End Probes.

(** C8 fails on the probe of [core/node]: the endpoint answers
    [{"ip":1,"swarm":true,"gateway":true}], the decoding fails on the
    number given for [ip] after it has set the two other fields, the probe
    logs the failure and reports both ports as open.  The probe of the
    older command reports closed on the same answer. *)
Theorem ipv4Test_mistyped_answer_reports_open :
  json_Decode_IpTest Example.mistyped IpTest_zero =
    ({| IpTest_Ip := EmptyString; Swarm := true; Gateway := true |},
     Some "json: cannot unmarshal into Go struct field of type string") ∧
  node.ipv4Test Example.mistyping Example.boot =
    (Ret {| IpTest_Ip := EmptyString; Swarm := true; Gateway := true |},
     set_now 1 Example.boot,
     [EGet "http://ip4.luanet.io" true;
      ELog "warn" "Failed to decode ipv4 port forwarding data."]) ∧
  cmd_old.ipv4Test Example.mistyping Example.boot =
    (Ret false, set_now 1 Example.boot,
     [EGet "http://ip4.luanet.io" true;
      ELog "warn" "Failed to decode ipv4 port forwarding data."]).
Proof. vm_compute. done. Qed.

(** The failure does not depend on the field [ip]: when the value of
    [gateway] has the wrong type, the swarm port is reported as open. *)
Lemma ipv4Test_half_typed_answer_reports_swarm_open :
  node.ipv4Test Example.half_typing Example.boot =
    (Ret {| IpTest_Ip := EmptyString; Swarm := true; Gateway := false |},
     set_now 1 Example.boot,
     [EGet "http://ip4.luanet.io" true;
      ELog "warn" "Failed to decode ipv4 port forwarding data."]) ∧
  res_of (cmd_old.ipv4Test Example.half_typing Example.boot) = Ret false.
Proof. vm_compute. done. Qed.

(** The same answer makes [NodeTest] report the ports of both versions
    as open, without an error. *)
Lemma NodeTest_mistyped_answer_reports_open :
  ∃ result,
    res_of (node.NodeTest Example.mistyping Example.boot) = Ret result ∧
    (Swarm <$> Ports result !! "v4") = Some true ∧
    (Gateway <$> Ports result !! "v6") = Some true.
Proof. eexists. vm_compute. done. Qed.

(** * More properties of the code

    The statements marked X1, X2, ... are about the code as a whole: the
    other paths of the functions above, the functions around them, and
    what all runs have in common. *)

(** ** What every run of the session code guarantees *)

Section SessionBasics.
Context {P : ProtoPkg} (w : World) (n : IpfsNode).

Lemma join_calls_app (a b : list Event) : join_calls (a ++ b) = (join_calls a + join_calls b)%nat.
Proof. unfold join_calls. by rewrite omap_app, length_app. Qed.

Lemma failed_sends_app (a b : list Event) : failed_sends (a ++ b) = failed_sends a ++ failed_sends b.
Proof. apply omap_app. Qed.

Lemma decoded_app (a b : list Event) : decoded (a ++ b) = decoded a ++ decoded b.
Proof. apply omap_app. Qed.

Lemma held_after_app cur (a b : list Event) :
  held_after cur (a ++ b) = held_after (held_after cur a) b.
Proof. revert cur. induction a as [|e a IH]; intros cur; [done|]. destruct e; cbn; auto. Qed.

Lemma on_held_stream_app cur (a b : list Event) :
  on_held_stream cur (a ++ b) = on_held_stream cur a && on_held_stream (held_after cur a) b.
Proof.
  revert cur. induction a as [|e a IH]; intros cur; [done|].
  destruct e; cbn; auto; by rewrite IH, andb_assoc.
Qed.

Lemma held_after_Some s (evs : list Event) : ∃ s', held_after (Some s) evs = Some s'.
Proof. revert s. induction evs as [|e evs IH]; intros s0; [by eauto|]. destruct e; cbn; eauto. Qed.

(** Events that are not of the session are invisible to the projections. *)
Lemma not_session (evs : list Event) :
  Forall (λ e, is_session_event e = false) evs →
  join_calls evs = 0%nat ∧ failed_sends evs = [] ∧ encoded evs = [] ∧ decoded evs = [] ∧
  ∀ cur, on_held_stream cur evs = true ∧ held_after cur evs = cur.
Proof.
  induction 1 as [|e evs He _ (IH1 & IH2 & IH3 & IH4 & IH5)]; [done|].
  destruct e; try discriminate He; cbn; split_and!; try done; apply IH5.
Qed.

Lemma is_get_not_session (evs : list Event) :
  Forall is_get evs → Forall (λ e, is_session_event e = false) evs.
Proof. intros H. eapply Forall_impl; [exact H|]. by intros e (url & ok & ->). Qed.

Lemma cert_event_not_session certs (evs : list Event) :
  Forall (cert_event w n certs) evs → Forall (λ e, is_session_event e = false) evs.
Proof.
  intros H. eapply Forall_impl; [exact H|].
  by intros e (ip & cert & ok & _ & [-> | [-> | ->]]).
Qed.

Lemma follows_refl st : follows st st [].
Proof. done. Qed.

Lemma follows_trans a b c e1 e2 : follows a b e1 → follows b c e2 → follows a c (e1 ++ e2).
Proof.
  intros [H1 H2] [H3 H4]. unfold follows.
  rewrite on_held_stream_app, held_after_app, H1, <- H2, H3. done.
Qed.

Lemma follows_not_session st st' evs :
  Stream st' = Stream st → Forall (λ e, is_session_event e = false) evs → follows st st' evs.
Proof.
  intros Hs H. destruct (not_session evs H) as (_ & _ & _ & _ & H5).
  destruct (H5 (Stream st)) as [Ha Hb]. split; [done|]. by rewrite Hb.
Qed.

Lemma received_certs_app (a b : list Event) :
  received_certs (a ++ b) = received_certs a ++ received_certs b.
Proof. unfold received_certs. by rewrite decoded_app, flat_map_app. Qed.

Lemma cert_event_mono certs certs' e :
  (∀ x, x ∈ certs → x ∈ certs') → cert_event w n certs e → cert_event w n certs' e.
Proof. intros Hsub (ip & cert & ok & Hin & He). exists ip, cert, ok. auto. Qed.

Lemma received_only_app a b : received_only w n a → received_only w n b → received_only w n (a ++ b).
Proof.
  intros Ha Hb e [Hin|Hin]%elem_of_app Hd; rewrite received_certs_app.
  - eapply cert_event_mono; [|by apply Ha]. intros x Hx. apply elem_of_app. by left.
  - eapply cert_event_mono; [|by apply Hb]. intros x Hx. apply elem_of_app. by right.
Qed.

Lemma received_only_no_disk evs : Forall (λ e, ¬ is_disk_event e) evs → received_only w n evs.
Proof. intros H e Hin Hd. rewrite Forall_forall in H. by destruct (H e Hin). Qed.

Lemma is_get_no_disk (evs : list Event) : Forall is_get evs → Forall (λ e, ¬ is_disk_event e) evs.
Proof.
  intros H. eapply Forall_impl; [exact H|].
  intros e (url & ok & ->) [(? & ? & [=])|(? & ? & ? & [=])].
Qed.

Lemma files_framed_refl st : files_framed st st [].
Proof. by intros p _. Qed.

Lemma files_framed_trans a b c e1 e2 :
  files_framed a b e1 → files_framed b c e2 → files_framed a c (e1 ++ e2).
Proof.
  intros H1 H2 p Hp. rewrite H2, H1; [done|..]; intros d ok Hin; apply (Hp d ok); solve_elem.
Qed.

Lemma files_framed_same st st' evs : files st' = files st → files_framed st st' evs.
Proof. intros H p _. by rewrite H. Qed.

(** [GetIpInfo] leaves the disk alone. *)
Lemma GetIpInfo_files version st :
  wp (GetIpInfo w version) st (λ _ st' _, files st' = files st ∧ dirs st' = dirs st).
Proof. unfold GetIpInfo, Repo_Config. wp_steps; done. Qed.

(** The loop over the certificates changes the files it writes, and no
    other. *)
Lemma write_certs_framed certs st :
  wp (write_certs w n certs) st (λ _ st' evs, files_framed st st' evs).
Proof.
  revert st. induction certs as [|[ip cert] rest IH]; intros st; cbn [write_certs].
  { wp_steps. apply files_framed_refl. }
  unfold os_MkdirAll, ioutil_WriteFile. wp_steps.
  all: try (eapply wp_mono; [apply IH|]; cbv beta; intros r st' evs Hevs).
  all: intros path Hpath;
       rewrite ?Hevs by (intros d ok Hin; apply (Hpath d ok); solve_elem); cbn.
  all: rewrite ?lookup_insert_ne; try done.
  all: intros <-; eapply Hpath; solve_elem.
Qed.

(** The loop over the certificates only does steps for its
    certificates. *)
Lemma write_certs_events certs st :
  wp (write_certs w n certs) st (λ _ _ evs, Forall (cert_event w n certs) evs).
Proof.
  revert st. induction certs as [|[ip cert] rest IH]; intros st; cbn [write_certs].
  { wp_steps. constructor. }
  assert (∀ e, cert_event w n rest e → cert_event w n ((ip, cert) :: rest) e) as Hmono.
  { intros e (ip' & cert' & ok & Hin & He). exists ip', cert', ok. split; [|done].
    apply elem_of_cons. by right. }
  assert (∀ ok, cert_event w n ((ip, cert) :: rest) (EMkdirAll (cert_dir w n ip) ok)) as H1.
  { intros ok. exists ip, cert, ok. split; [apply elem_of_cons; by left|auto]. }
  assert (∀ ok, cert_event w n ((ip, cert) :: rest)
                  (EWriteFile (private_pem w n ip) (Privkey (Pems cert)) ok)) as H2.
  { intros ok. exists ip, cert, ok. split; [apply elem_of_cons; by left|auto]. }
  assert (∀ ok, cert_event w n ((ip, cert) :: rest)
                  (EWriteFile (cert_pem w n ip) (Cert (Pems cert)) ok)) as H3.
  { intros ok. exists ip, cert, ok. split; [apply elem_of_cons; by left|auto]. }
  unfold os_MkdirAll, ioutil_WriteFile. wp_steps.
  all: try (eapply wp_mono; [apply IH|]; cbv beta; intros r st' evs Hevs).
  all: cbn; repeat first [apply Forall_cons; split; [done|] | apply Forall_nil; done
                         | apply Forall_app; split ].
  all: by (eapply Forall_impl; [exact Hevs|exact Hmono]).
Qed.

Lemma asked_app (a b : list Event) : asked (a ++ b) = asked a ++ asked b.
Proof. apply omap_app. Qed.

Lemma printed_app (a b : list Event) : printed (a ++ b) = printed a ++ printed b.
Proof. apply omap_app. Qed.

Lemma downloads_started_app (a b : list Event) :
  downloads_started (a ++ b) = (downloads_started a + downloads_started b)%nat.
Proof. unfold downloads_started. by rewrite printed_app, List.filter_app, length_app. Qed.

Lemma last_app_Some {A} (l1 l2 : list A) x : last l2 = Some x → last (l1 ++ l2) = Some x.
Proof.
  intros H. destruct l2 as [|y l2]; [done|]. rewrite <- H. clear.
  induction l1 as [|z l1 IH]; [done|]. cbn. destruct (l1 ++ y :: l2) eqn:E; [by destruct l1|done].
Qed.
End SessionBasics.

(** A list of events given in full holds no step on the disk. *)
Ltac no_disk :=
  repeat first
    [ apply Forall_nil_2
    | apply Forall_cons_2; [intros [(? & ? & [=])|(? & ? & ? & [=])]|] ].

Ltac held :=
  repeat match goal with H : Stream _ = Some _ |- _ => rewrite H end;
  cbn; rewrite ?bool_decide_eq_true_2 by done.

Ltac answer :=
  cbn; eexists; split; [reflexivity|]; cbn;
  repeat match goal with H : Data _ = _ |- _ => rewrite H end; done.

(** A run given in full, with no step on the disk. *)
Ltac session_leaf :=
  unfold SessionPost; split_and!;
  [ first [ by intros ? [=] | intros ? [= <-]; split; [reflexivity|answer] ]
  | first [ by intros ? [=] | intros ? _; by left | intros ? _; right; answer ]
  | intros H; first [ done | by destruct H ]
  | unfold follows; cbn; held; done
  | apply received_only_no_disk; no_disk
  | by apply files_framed_same ].

Section Session.
Context {P : ProtoPkg} (w : World) (n : IpfsNode).

Lemma last_decoded_app (e1 e2 : list Event) x :
  last (decoded e2) = Some x → last (decoded (e1 ++ e2)) = Some x.
Proof.
  intros H. rewrite decoded_app. destruct (decoded e2) as [|y l] eqn:E; [done|].
  rewrite <- H. clear. induction (decoded e1) as [|z l1 IH]; [done|].
  cbn. destruct (l1 ++ y :: l) eqn:E; [by destruct l1|]. done.
Qed.

(** One piece of a run after another. *)
Lemma SessionPost_seq {A B} b1 b2 st (a : A) st1 e1 (r : Res B) st2 e2 evs :
  SessionPost w n b1 st (Ret a) st1 e1 →
  SessionPost w n b2 st1 r st2 e2 →
  evs = e1 ++ e2 →
  SessionPost w n (b1 + b2) st r st2 evs.
Proof.
  intros (_ & Ha1 & Hc1 & Hf1 & Hr1 & Hd1) (Hp2 & Ha2 & Hc2 & Hf2 & Hr2 & Hd2) ->.
  unfold SessionPost. split_and!.
  - intros reason Hr. destruct (Hp2 reason Hr) as (-> & x & Hx & Hb).
    split; [done|]. exists x. split; [|done]. by apply last_decoded_app.
  - intros a' Hr. destruct (Ha2 a' Hr) as [Hnil|(x & Hx & Hb)].
    + rewrite decoded_app, Hnil, app_nil_r. by apply (Ha1 a).
    + right. exists x. split; [|done]. by apply last_decoded_app.
  - intros Hr. rewrite join_calls_app, failed_sends_app, length_app, Hc1, Hc2 by done. lia.
  - by eapply follows_trans.
  - by apply received_only_app.
  - by eapply files_framed_trans.
Qed.

(** A run that did not return guarantees the same at every type. *)
Lemma SessionPost_Panic {A B} b st reason st' evs :
  SessionPost w n b st (Panic reason : Res A) st' evs →
  SessionPost w n b st (Panic reason : Res B) st' evs.
Proof.
  intros (Hp & Ha & Hc & Hf & Hr & Hd). unfold SessionPost. split_and!; try done.
  - intros ? [= <-]. by apply Hp.
  - intros _. by apply Hc.
Qed.

Lemma SessionPost_Starved {A B} b st st' evs :
  SessionPost w n b st (Starved : Res A) st' evs →
  SessionPost w n b st (Starved : Res B) st' evs.
Proof. intros (Hp & Ha & Hc & Hf & Hr & Hd). unfold SessionPost. split_and!; done. Qed.

(** A piece that only asks for addresses. *)
Lemma SessionPost_gets {A} st (a : A) st' evs :
  Stream st' = Stream st → files st' = files st → Forall is_get evs →
  SessionPost w n 0 st (Ret a) st' evs.
Proof.
  intros Hs Hfiles Hg. pose proof (is_get_not_session _ Hg) as Hn.
  destruct (not_session _ Hn) as (Hj & Hf & _ & Hd & _).
  unfold SessionPost. split_and!.
  - by intros ? [=].
  - intros _ _. by left.
  - intros _. by rewrite Hj, Hf.
  - by apply follows_not_session.
  - by apply received_only_no_disk, is_get_no_disk.
  - by apply files_framed_same.
Qed.

Lemma join_answer_session st s :
  Stream st = Some s → wp (join_answer w n) st (SessionPost w n 0 st).
Proof.
  intros Hs. unfold join_answer, ReadQuicMsg, deref_Stream, gob_Decode, log_Error.
  wp_steps; simplify_eq.
  all: try session_leaf.
  wp_call write_certs_quiet rw stw ew Ew Hw.
  pose proof (wp_run _ _ _ _ _ _ Ew (write_certs_events w n _ _)) as Hev. cbv beta in Hev.
  pose proof (wp_run _ _ _ _ _ _ Ew (write_certs_framed w n _ _)) as Hfr. cbv beta in Hfr.
  destruct Hw as (([o ->] & Hsw & Hnw & Hew) & Herr). cbn in Hsw.
  apply negb_false_iff in Heqb.
  pose proof (cert_event_not_session w n _ _ Hev) as Hns.
  destruct (not_session ew Hns) as (Hj & Hf & _ & Hd & _).
  assert (∀ r' : result JoinRes error,
            SessionPost w n 0 st (Ret r') stw ([EDecode s (Some p)] ++ ew)) as HP.
  { intros r'. unfold SessionPost. split_and!.
    - by intros ? [=].
    - intros _ _. right. exists (Some p). split.
      + rewrite decoded_app, Hd. done.
      + cbn. by rewrite Heqp0.
    - intros _. rewrite join_calls_app, failed_sends_app, Hj, Hf. done.
    - apply follows_trans with (b := set_now (S (now st)) st).
      + unfold follows. cbn. held. done.
      + by apply follows_not_session.
    - intros e [[->|[]%elem_of_nil]%elem_of_cons|Hin]%elem_of_app Hdisk.
      + by destruct Hdisk as [(? & ? & [=])|(? & ? & ? & [=])].
      + rewrite received_certs_app. unfold received_certs at 1. cbn. rewrite Heqp0, Heqb.
        rewrite app_nil_r. eapply cert_event_mono; [|rewrite Forall_forall in Hev; by apply Hev].
        intros x Hx. apply elem_of_app. by left.
    - apply files_framed_trans with (b := set_now (S (now st)) st); [|done].
      by apply files_framed_same. }
  wp_steps; cbn; rewrite ?app_nil_r; apply HP.
Qed.

Lemma SendQuicMsg_with_session join msg st s :
  Stream st = Some s →
  (∀ st0, wp join st0 (SessionPost w n 1 st0)) →
  wp (SendQuicMsg_with w join msg) st (SessionPost w n 0 st).
Proof.
  intros Hs Hjoin. unfold SendQuicMsg_with, deref_Stream, gob_Encode, log_Error.
  wp_steps; simplify_eq.
  - wp_call Hjoin rj stj ej Ej Hj.
    destruct Hj as (Hpanic & Hret & Hcount & Hfollow & Hrecv & Hframe).
    assert (SessionPost w n 0 st
              (match rj with Ret _ => Ret tt | Panic x => Panic x | Starved => Starved end) stj
              ([EEncode s msg false; ELog "error" "Failed to send quic message: %v"] ++ ej))
      as HP.
    { unfold SessionPost. split_and!.
      - intros reason Hr. destruct (Hpanic reason) as (-> & x & Hx & Hb).
        { destruct rj; by simplify_eq. }
        split; [done|]. exists x. split; [|done]. by apply last_decoded_app.
      - intros a' Hr. destruct rj as [a| |]; [|done..].
        destruct (Hret a eq_refl) as [Hnil|(x & Hx & Hb)].
        + left. by rewrite decoded_app, Hnil.
        + right. exists x. split; [|done]. by apply last_decoded_app.
      - intros Hr. rewrite join_calls_app, failed_sends_app, Hcount by (by destruct rj).
        cbn. done.
      - eapply follows_trans; [|exact Hfollow]. unfold follows. cbn. held. done.
      - apply received_only_app; [|done]. apply received_only_no_disk. no_disk.
      - eapply files_framed_trans; [|exact Hframe]. by apply files_framed_same. }
    destruct rj; wp_steps; cbn; rewrite ?app_nil_r; exact HP.
  - session_leaf.
Qed.

Lemma JoinLuanet_session fuel st : wp (JoinLuanet w n fuel) st (SessionPost w n 1 st).
Proof.
  revert st. induction fuel as [|fuel IH]; intros st; cbn [JoinLuanet].
  { wp_steps. session_leaf. }
  match goal with |- context [bind (ReadQuicMsg w) ?k] =>
    change (bind (ReadQuicMsg w) k) with (join_answer w n) end.
  unfold Repo_Config, quic_DialAddr, conn_OpenStreamSync, time_Now_Unix, PrivateKey_Sign,
    log_Info.
  wp_steps; try session_leaf.
  wp_call (GetIpInfo_post w "ip4") r4 st4 e4 E4 H4.
  pose proof (wp_run _ _ _ _ _ _ E4 (GetIpInfo_files w _ _)) as [Hf4 _].
  destruct H4 as (([ip4 ->] & Hs4 & _) & Hg4). cbv iota.
  wp_steps.
  wp_call (GetIpInfo_post w "ip6") r6 st6 e6 E6 H6.
  pose proof (wp_run _ _ _ _ _ _ E6 (GetIpInfo_files w _ _)) as [Hf6 _].
  destruct H6 as (([ip6 ->] & Hs6 & _) & Hg6). cbv iota.
  wp_steps.
  wp_call SendQuicMsg_with_session rs sts es Es Hsend.
  match type of E4 with _ _ _ ?s = _ => set (st5 := s) in * end.
  match goal with |- context [EOpenStreamSync (Some ?x)] => set (stream := x) in * end.
  match goal with |- context [ESign ?b true] => set (bytes := b) in * end.
  match goal with |- context [ELog "info" ?m] => set (line := m) in * end.
  assert (SessionPost w n 1 st (Ret tt) st5
            [ECall_JoinLuanet; ELog "info" line; EDialAddr (Api (Config_Luanet c)) true;
             EOpenStreamSync (Some stream); ESign bytes true]) as H0 by session_leaf.
  pose proof (SessionPost_gets st5 ip4 st4 e4 Hs4 Hf4 Hg4) as H4.
  pose proof (SessionPost_gets st4 ip6 st6 e6 Hs6 Hf6 Hg6) as H6.
  assert (SessionPost w n 0 st6 (Ret tt) (set_Stream (Some stream) st6) [EAssignStream stream])
    as Ha by session_leaf.
  pose proof (SessionPost_seq _ _ _ _ _ _ _ _ _ _ Ha Hsend eq_refl) as H7.
  pose proof (SessionPost_seq _ _ _ _ _ _ _ _ _ _ H6 H7 eq_refl) as H8.
  pose proof (SessionPost_seq _ _ _ _ _ _ _ _ _ _ H4 H8 eq_refl) as H9.
  pose proof (SessionPost_seq _ _ _ _ _ _ _ _ _ _ H0 H9 eq_refl) as Hsent.
  cbn [Nat.add] in Hsent.
  destruct rs as [[]| |];
    [|cbn; rewrite ?app_nil_r; first [exact (SessionPost_Panic _ _ _ _ _ Hsent)
                                     |exact (SessionPost_Starved _ _ _ _ Hsent)]..].
  destruct Hsend as (_ & _ & _ & [_ Hheld] & _). cbn [Stream set_Stream] in Hheld.
  destruct (held_after_Some stream es) as [s_b Hsb]. rewrite Hsb in Hheld.
  wp_call join_answer_session ra sta ea Ea Ha'.
  apply (SessionPost_seq 1 0 _ _ _ _ _ _ _ _ Hsent Ha').
  cbn. rewrite <- !app_assoc. reflexivity.
Qed.
End Session.

Section SessionLoops.
Context {P : ProtoPkg} (w : World) (n : IpfsNode).

Lemma SendQuicMsg_session fuel msg st s :
  Stream st = Some s → wp (SendQuicMsg w n fuel msg) st (SessionPost w n 0 st).
Proof.
  intros Hs. eapply (SendQuicMsg_with_session w n); [done|]. intros st0. apply JoinLuanet_session.
Qed.

Lemma HeartBeat_tick_session fuel st s :
  Stream st = Some s → wp (HeartBeat_tick w n fuel) st (SessionPost w n 0 st).
Proof.
  intros Hs. unfold HeartBeat_tick, Reporter_GetBandwidthTotals. wp_steps.
  wp_call SendQuicMsg_session rs sts es Es Hsend.
  assert (SessionPost w n 0 st (Ret tt) (set_now (S (now st)) st) []) as H0 by session_leaf.
  apply (SessionPost_seq w n 0 0 _ _ _ _ _ _ _ _ H0 Hsend). reflexivity.
Qed.

Lemma iterate_session (body : M unit) :
  (∀ st s, Stream st = Some s → wp body st (SessionPost w n 0 st)) →
  ∀ k st s, Stream st = Some s → wp (iterate k body) st (SessionPost w n 0 st).
Proof.
  intros Hbody. induction k as [|k IH]; intros st s Hs; cbn [iterate].
  { wp_steps. session_leaf. }
  wp_steps. wp_call Hbody r1 st1 e1 E1 H1.
  destruct r1 as [[]| |]; [|by rewrite ?app_nil_r..].
  pose proof H1 as (_ & _ & _ & [_ Hheld] & _). rewrite Hs in Hheld.
  destruct (held_after_Some s e1) as [s1 Hs1]. rewrite Hs1 in Hheld.
  wp_call IH r2 st2 e2 E2 H2.
  apply (SessionPost_seq w n 0 0 _ _ _ _ _ _ _ _ H1 H2). reflexivity.
Qed.

Lemma HeartBeat_session fuel k st s :
  Stream st = Some s → wp (HeartBeat w n fuel k) st (SessionPost w n 0 st).
Proof. apply iterate_session. intros st0 s0. apply HeartBeat_tick_session. Qed.

Lemma HeartBeat_without_stream fuel k st :
  Stream st = None →
  HeartBeat w n fuel (S k) st = (Panic nil_dereference, set_now (S (now st)) st, []).
Proof. intros Hs. unfold HeartBeat, HeartBeat_tick, SendQuicMsg. cbn. by rewrite Hs. Qed.
End SessionLoops.

(** ** The join, on all its paths *)

Section JoinFailures.
Context {P : ProtoPkg} (w : World) (n : IpfsNode).

(** X1.  When the configuration cannot be read, the coordinator cannot be
    dialled, no stream can be opened or the key cannot sign, [JoinLuanet]
    returns the error of that call at once.  It has sent nothing and asked
    for no address, and the node is as before but for the clock: the field
    [Stream] is untouched, also when a stream was already opened, which is
    then dropped. *)
Theorem JoinLuanet_fails_before_send fuel st e :
  (env_Repo_Config w (now st) = Error e →
   JoinLuanet w n (S fuel) st =
     (Ret (Error (LibError e)), set_now (1 + now st) st, [ECall_JoinLuanet])) ∧
  (∀ cfg, env_Repo_Config w (now st) = Ok cfg →
   (env_DialAddr w (1 + now st) (Api (Config_Luanet cfg)) = Some e →
    JoinLuanet w n (S fuel) st =
      (Ret (Error (LibError e)), set_now (2 + now st) st,
       [ECall_JoinLuanet;
        ELog "info" ("Connecting to node address: " +:+ Api (Config_Luanet cfg));
        EDialAddr (Api (Config_Luanet cfg)) false])) ∧
   (env_DialAddr w (1 + now st) (Api (Config_Luanet cfg)) = None →
    (env_OpenStreamSync w (2 + now st) = Some e →
     JoinLuanet w n (S fuel) st =
       (Ret (Error (LibError e)), set_now (3 + now st) st,
        [ECall_JoinLuanet;
         ELog "info" ("Connecting to node address: " +:+ Api (Config_Luanet cfg));
         EDialAddr (Api (Config_Luanet cfg)) true;
         EOpenStreamSync None])) ∧
    (env_OpenStreamSync w (2 + now st) = None →
     env_Sign w (4 + now st) (PrivateKey n)
       (Identity n +:+ "." +:+
        FormatInt10 (add64 (env_Now_Unix w (3 + now st)) (ExpiresTime (Config_Luanet cfg)))) =
       Error e →
     JoinLuanet w n (S fuel) st =
       (Ret (Error (LibError e)), set_now (5 + now st) st,
        [ECall_JoinLuanet;
         ELog "info" ("Connecting to node address: " +:+ Api (Config_Luanet cfg));
         EDialAddr (Api (Config_Luanet cfg)) true;
         EOpenStreamSync (Some (2 + now st)%nat);
         ESign (Identity n +:+ "." +:+
                FormatInt10 (add64 (env_Now_Unix w (3 + now st))
                               (ExpiresTime (Config_Luanet cfg)))) false])))).
Proof.
  cbn [Nat.add]. split; [|intros cfg Hc; split; [|intros Hd; split]].
  - intros Hc. run. reflexivity.
  - intros Hd. run. reflexivity.
  - intros Ho. run. reflexivity.
  - intros Ho Hs. run. reflexivity.
Qed.

Lemma disk_failure_app certs (pre evs : list Event) :
  disk_failure w n certs evs → disk_failure w n certs (pre ++ evs).
Proof.
  intros (ip & cert & Hin & H). exists ip, cert. split; [done|].
  destruct H as [H|H]; [left|right]; by apply last_app_Some.
Qed.

Lemma disk_failure_cons certs x (evs : list Event) :
  disk_failure w n certs evs → disk_failure w n (x :: certs) evs.
Proof.
  intros (ip & cert & Hin & H). exists ip, cert. split; [|done]. apply elem_of_cons. by right.
Qed.

(** An error of the loop over the certificates is the error of the step
    at which the loop stopped. *)
Lemma write_certs_error certs st :
  wp (write_certs w n certs) st (λ r _ evs,
    ∀ err, r = Ret (Some err) → (∃ e, err = LibError e) ∧ disk_failure w n certs evs).
Proof.
  revert st. induction certs as [|[ip cert] rest IH]; intros st; cbn [write_certs].
  { wp_steps. by intros ? [=]. }
  assert ((ip, cert) ∈ (ip, cert) :: rest) as Hin by (apply elem_of_cons; by left).
  unfold os_MkdirAll, ioutil_WriteFile. wp_steps.
  all: try (eapply wp_mono; [apply IH|]; cbv beta; intros r st' evs Hevs err Hr;
            destruct (Hevs err Hr) as [He Hd]; split; [done|];
            rewrite !app_assoc; by apply disk_failure_app, disk_failure_cons).
  all: intros err [= <-]; split; [by eauto|]; exists ip, cert; split; [done|]; cbn; auto.
Qed.

Lemma join_answer_errors st :
  wp (join_answer w n) st (λ r _ evs, ∀ err, r = Ret (Error err) →
    (∃ s m jr, err = Errorf ("Failed to join lua network: " +:+ Message jr) ∧
               last evs = Some (EDecode s (Some m)) ∧
               Data m = DJoinRes jr ∧ Success jr = false) ∨
    (∃ e m jr, err = LibError e ∧ last (decoded evs) = Some (Some m) ∧
               Data m = DJoinRes jr ∧ Success jr = true ∧
               disk_failure w n (Certs jr) evs)).
Proof.
  unfold join_answer, ReadQuicMsg, deref_Stream, gob_Decode, log_Error.
  wp_steps; simplify_eq; try (by intros ? [=]).
  - intros err [= <-]. left. apply negb_true_iff in Heqb. eauto 10.
  - apply negb_false_iff in Heqb.
    wp_call write_certs_error rw stw ew Ew Hw.
    pose proof (wp_run _ _ _ _ _ _ Ew (write_certs_events w n _ _)) as Hev. cbv beta in Hev.
    destruct (not_session ew (cert_event_not_session w n _ _ Hev)) as (_ & _ & _ & Hd & _).
    destruct rw as [[e|]| |]; wp_steps; try (by intros ? [=]).
    intros err [= <-]. right. destruct (Hw e eq_refl) as [[e' ->] Hfail].
    exists e', p, r. split_and!; try done.
    + rewrite !decoded_app, Hd. done.
    + rewrite (app_nil_r ew). by apply disk_failure_app.
Qed.

(** X2.  An error that [JoinLuanet] returns is of one of three kinds: the
    error of a call made before the request is sent, and then nothing was
    sent and the node is as before but for the clock; the refusal of the
    coordinator, decoded last; or the error of the directory or of the
    [private.pem] at which the loop over the certificates of an accepting
    answer stopped. *)
Theorem JoinLuanet_error_kinds fuel st err :
  res_of (JoinLuanet w n fuel st) = Ret (Error err) →
  (∃ e, err = LibError e ∧
        encoded (evs_of (JoinLuanet w n fuel st)) = [] ∧
        st_of (JoinLuanet w n fuel st) =
          set_now (now (st_of (JoinLuanet w n fuel st))) st) ∨
  (∃ s m jr, err = Errorf ("Failed to join lua network: " +:+ Message jr) ∧
             last (evs_of (JoinLuanet w n fuel st)) = Some (EDecode s (Some m)) ∧
             Data m = DJoinRes jr ∧ Success jr = false) ∨
  (∃ e m jr, err = LibError e ∧
             last (decoded (evs_of (JoinLuanet w n fuel st))) = Some (Some m) ∧
             Data m = DJoinRes jr ∧ Success jr = true ∧
             disk_failure w n (Certs jr) (evs_of (JoinLuanet w n fuel st))).
Proof.
  revert err.
  change (wp (JoinLuanet w n fuel) st (λ r st' evs, ∀ err, r = Ret (Error err) →
    (∃ e, err = LibError e ∧ encoded evs = [] ∧ st' = set_now (now st') st) ∨
    (∃ s m jr, err = Errorf ("Failed to join lua network: " +:+ Message jr) ∧
               last evs = Some (EDecode s (Some m)) ∧
               Data m = DJoinRes jr ∧ Success jr = false) ∨
    (∃ e m jr, err = LibError e ∧ last (decoded evs) = Some (Some m) ∧
               Data m = DJoinRes jr ∧ Success jr = true ∧
               disk_failure w n (Certs jr) evs))).
  destruct fuel as [|fuel]; cbn [JoinLuanet].
  { wp_steps. by intros ? [=]. }
  match goal with |- context [bind (ReadQuicMsg w) ?k] =>
    change (bind (ReadQuicMsg w) k) with (join_answer w n) end.
  unfold Repo_Config, quic_DialAddr, conn_OpenStreamSync, time_Now_Unix, PrivateKey_Sign,
    log_Info.
  wp_steps.
  all: try (intros err [= <-]; left; eexists; split_and!; [reflexivity|reflexivity|]; by destruct st).
  wp_call (GetIpInfo_post w "ip4") r4 st4 e4 E4 H4.
  destruct H4 as (([ip4 ->] & _) & _). cbv iota.
  wp_steps.
  wp_call (GetIpInfo_post w "ip6") r6 st6 e6 E6 H6.
  destruct H6 as (([ip6 ->] & _) & _). cbv iota.
  wp_steps.
  apply wp_any. intros [[]| |] sts es; [|by intros ? [=]..].
  eapply wp_mono; [apply join_answer_errors|]. cbv beta. intros ra sta ea Ha err Hr.
  right. destruct (Ha err Hr) as [(s' & m & jr & -> & Hl & Hd & Hs)|(e & m & jr & -> & Hl & Hd & Hs & Hf)].
  - left. exists s', m, jr. split_and!; try done. rewrite !app_assoc. by apply last_app_Some.
  - right. exists e, m, jr. split_and!; try done.
    + rewrite !app_assoc. by apply last_decoded_app.
    + rewrite !app_assoc. by apply disk_failure_app.
Qed.

End JoinFailures.

Section JoinRequest.
Context {P : ProtoPkg} (w : World) (n : IpfsNode).

Lemma GetIpInfo_run version st cfg :
  env_Repo_Config w (now st) = Ok cfg →
  ∃ ok,
    GetIpInfo w version st =
      (Ret (default Ip_zero
              (env_http_Get_Ip w (S (now st))
                 ("http://" +:+ version +:+ "." +:+ Domain (Config_Luanet cfg)))),
       set_now (S (S (now st))) st,
       [EGet ("http://" +:+ version +:+ "." +:+ Domain (Config_Luanet cfg)) ok]).
Proof.
  intros Hc. unfold GetIpInfo. cbn. rewrite Hc. cbn.
  destruct (env_http_Get_Ip w (S (now st)) _); cbn; eauto.
Qed.

(** X4.  A join that gets as far as the request asks for the addresses
    [http://ip4.<Domain>] and [http://ip6.<Domain>], in this order and
    before any other address, and the request carries the two answers; a
    lookup that failed leaves the zero address in the request and does not
    stop the join. *)
Theorem JoinLuanet_request_addresses fuel st cfg sig :
  (∀ t, env_Repo_Config w t = Ok cfg) →
  env_DialAddr w (1 + now st) (Api (Config_Luanet cfg)) = None →
  env_OpenStreamSync w (2 + now st) = None →
  env_Sign w (4 + now st) (PrivateKey n)
    (Identity n +:+ "." +:+
     FormatInt10 (add64 (env_Now_Unix w (3 + now st)) (ExpiresTime (Config_Luanet cfg)))) =
    Ok sig →
  ∃ asked_later encoded_later,
    asked (evs_of (JoinLuanet w n (S fuel) st)) =
      ("http://" +:+ "ip4" +:+ "." +:+ Domain (Config_Luanet cfg)) ::
      ("http://" +:+ "ip6" +:+ "." +:+ Domain (Config_Luanet cfg)) :: asked_later ∧
    encoded (evs_of (JoinLuanet w n (S fuel) st)) =
      {| Service := JoinService;
         Data := DJoinReq
           {| Address := Identity n;
              Ipv4 := default Ip_zero
                        (env_http_Get_Ip w (6 + now st)
                           ("http://" +:+ "ip4" +:+ "." +:+ Domain (Config_Luanet cfg)));
              Ipv6 := default Ip_zero
                        (env_http_Get_Ip w (8 + now st)
                           ("http://" +:+ "ip6" +:+ "." +:+ Domain (Config_Luanet cfg)));
              Signature := sig;
              Expires := add64 (env_Now_Unix w (3 + now st))
                           (ExpiresTime (Config_Luanet cfg)) |} |}
      :: encoded_later.
Proof.
  intros Hc Hd Ho Hs. cbn [Nat.add] in Hd, Ho, Hs |- *.
  match goal with |- ∃ al el, asked _ = ?a4 :: ?a6 :: al ∧ encoded _ = ?m :: el =>
    cut (wp (JoinLuanet w n (S fuel)) st (λ _ _ evs,
           ∃ al el, asked evs = a4 :: a6 :: al ∧ encoded evs = m :: el)); [done|]
  end.
  cbn [JoinLuanet].
  unfold Repo_Config, quic_DialAddr, conn_OpenStreamSync, time_Now_Unix, PrivateKey_Sign,
    log_Info, SendQuicMsg_with, deref_Stream, gob_Encode.
  repeat (wp_step; rewrite ?Hc in *; simplify_eq).
  match goal with |- wp (GetIpInfo w "ip4") ?s _ =>
    destruct (GetIpInfo_run "ip4" s c (Hc _)) as [ok4 E4] end.
  apply (wp_of_run _ _ _ _ _ _ E4). cbv beta iota. wp_step.
  match goal with |- wp (GetIpInfo w "ip6") ?s _ =>
    destruct (GetIpInfo_run "ip6" s c (Hc _)) as [ok6 E6] end.
  apply (wp_of_run _ _ _ _ _ _ E6). cbv beta iota.
  repeat (wp_step; simplify_eq); wp_skip;
    eexists _, _; rewrite ?asked_app, ?encoded_app; cbn; split; reflexivity.
Qed.

(** X5.  As long as every [Encode] fails while the configuration, the
    dial, the stream and the signature succeed, [JoinLuanet] and
    [SendQuicMsg] call each other without end: whatever the depth allowed,
    the run reaches it, having called [JoinLuanet] once per level. *)
Theorem JoinLuanet_never_returns_while_sends_fail fuel st :
  (∀ t e, env_Repo_Config w t ≠ Error e) →
  (∀ t addr e, env_DialAddr w t addr ≠ Some e) →
  (∀ t e, env_OpenStreamSync w t ≠ Some e) →
  (∀ t key bytes e, env_Sign w t key bytes ≠ Error e) →
  (∀ t s m, env_Encode w t s m ≠ None) →
  res_of (JoinLuanet w n fuel st) = Starved ∧
  join_calls (evs_of (JoinLuanet w n fuel st)) = fuel.
Proof.
  intros Hc Hd Ho Hs He.
  change (wp (JoinLuanet w n fuel) st (λ r _ evs, r = Starved ∧ join_calls evs = fuel)).
  revert st. induction fuel as [|fuel IH]; intros st; cbn [JoinLuanet].
  { wp_steps. done. }
  unfold Repo_Config, quic_DialAddr, conn_OpenStreamSync, time_Now_Unix, PrivateKey_Sign,
    log_Info.
  wp_steps;
    try match goal with
        | H : env_Repo_Config _ _ = Error _ |- _ => by destruct (Hc _ _ H)
        | H : env_DialAddr _ _ _ = Some _ |- _ => by destruct (Hd _ _ _ H)
        | H : env_OpenStreamSync _ _ = Some _ |- _ => by destruct (Ho _ _ H)
        | H : env_Sign _ _ _ _ = Error _ |- _ => by destruct (Hs _ _ _ _ H)
        end.
  wp_call (GetIpInfo_post w "ip4") r4 st4 e4 E4 H4.
  destruct H4 as (([ip4 ->] & _) & Hg4). cbv iota.
  wp_steps.
  wp_call (GetIpInfo_post w "ip6") r6 st6 e6 E6 H6.
  destruct H6 as (([ip6 ->] & _) & Hg6). cbv iota.
  destruct (not_session _ (is_get_not_session _ Hg4)) as (Hj4 & _).
  destruct (not_session _ (is_get_not_session _ Hg6)) as (Hj6 & _).
  unfold SendQuicMsg_with, deref_Stream, gob_Encode, log_Error.
  wp_steps; simplify_eq;
    try match goal with H : env_Encode _ _ _ _ = None |- _ => by destruct (He _ _ _ H) end.
  wp_call IH rj stj ej Ej Hj. destruct Hj as [-> Hj].
  rewrite !join_calls_app, Hj4, Hj6, Hj. done.
Qed.
End JoinRequest.

Section JoinDisk.
Context {P : ProtoPkg} (w : World) (n : IpfsNode).

(** X6.  Every directory that a run of [JoinLuanet] makes and every file
    that it writes is the directory, the [private.pem] or the [cert.pem] of
    a certificate of an answer that accepted a join and was decoded in this
    run, written with the key or the certificate of that entry; every
    other file is left as it was. *)
Theorem JoinLuanet_writes_only_received_certificates fuel st :
  (∀ e, e ∈ evs_of (JoinLuanet w n fuel st) → is_disk_event e →
        cert_event w n (received_certs (evs_of (JoinLuanet w n fuel st))) e) ∧
  (∀ p, p ∉ cert_files w n (received_certs (evs_of (JoinLuanet w n fuel st))) →
        files (st_of (JoinLuanet w n fuel st)) !! p = files st !! p).
Proof.
  destruct (JoinLuanet_session w n fuel st) as (_ & _ & _ & _ & Hr & Hf).
  split; [exact Hr|]. intros p Hp. apply Hf. intros d ok Hin.
  destruct (Hr _ Hin) as (ip & cert & ok' & Hc & He).
  { right. eauto. }
  apply Hp. unfold cert_files. apply list_elem_of_In, in_flat_map.
  exists (ip, cert). split; [by apply list_elem_of_In|].
  destruct He as [[=]|[[= -> _ _]|[= -> _ _]]]; cbn; auto.
Qed.

(** The loop over a list of certificates is the loop over a first part
    and then, unless that stopped with an error, over the rest. *)
Lemma write_certs_app a b st :
  write_certs w n (a ++ b) st =
  (e ← write_certs w n a;
   match e with
   | Some err => ret (Some err)
   | None => write_certs w n b
   end) st.
Proof.
  revert st. induction a as [|[ip cert] a IH]; intros st.
  { cbn. by destruct (write_certs w n b st) as [[r st'] evs]. }
  cbn [app write_certs]. cbn -[write_certs].
  destruct (env_MkdirAll w (now st) _) as [e|]; cbn -[write_certs]; [done|].
  destruct (env_WriteFile w (S (now st)) _ _) as [[e junk]|]; cbn -[write_certs].
  { by destruct junk. }
  destruct (env_WriteFile w (S (S (now st))) _ _) as [[e [junk|]]|]; cbn -[write_certs].
  all: rewrite IH; cbn -[write_certs].
  all: match goal with |- context [write_certs _ _ ?l ?s] =>
         destruct (write_certs w n l s) as [[[[err|]| |] st1] e1] end; cbn -[write_certs].
  all: try done.
  all: match goal with |- context [write_certs _ _ ?l ?s] =>
         destruct (write_certs w n l s) as [[r st2] e2] end; cbn.
  all: by rewrite <- ?app_assoc.
Qed.

(** X7.  The loop over the certificates does not undo what it did: when
    it stops at the [private.pem] of an entry, the join fails with the
    error of that write, the entries after it are never tried, and the
    directory and the [private.pem] of every entry before it stay on the
    disk. *)
Theorem write_certs_not_rolled_back pre ip cert rest st st1 evs1 e junk :
  write_certs w n pre st = (Ret None, st1, evs1) →
  NoDup (cert_files w n (pre ++ [(ip, cert)])) →
  env_MkdirAll w (now st1) (cert_dir w n ip) = None →
  env_WriteFile w (1 + now st1) (private_pem w n ip) (Privkey (Pems cert)) = Some (e, junk) →
  res_of (write_certs w n (pre ++ (ip, cert) :: rest) st) = Ret (Some (LibError e)) ∧
  evs_of (write_certs w n (pre ++ (ip, cert) :: rest) st) =
    evs1 ++ [EMkdirAll (cert_dir w n ip) true;
             EWriteFile (private_pem w n ip) (Privkey (Pems cert)) false] ∧
  ∀ ip' cert', (ip', cert') ∈ pre →
    cert_dir w n ip' ∈ dirs (st_of (write_certs w n (pre ++ (ip, cert) :: rest) st)) ∧
    files (st_of (write_certs w n (pre ++ (ip, cert) :: rest) st)) !! private_pem w n ip' =
      Some (Privkey (Pems cert')).
Proof.
  intros Hpre Hnd Hm Hp. cbn [Nat.add] in Hp.
  rewrite write_certs_app. cbn -[write_certs]. rewrite Hpre. cbn. rewrite Hm. cbn.
  rewrite Hp. cbn.
  assert (NoDup (cert_files w n pre) ∧ private_pem w n ip ∉ cert_files w n pre) as [Hnd1 Hfresh].
  { unfold cert_files in *. rewrite flat_map_app in Hnd. apply NoDup_app in Hnd as (H1 & H2 & _).
    split; [done|]. intros Hin. apply (H2 _ Hin). cbn. apply elem_of_cons. by left. }
  destruct (write_certs_files w n pre st st1 evs1 Hpre Hnd1) as (Hentries & _ & _).
  assert (∀ ip' cert', (ip', cert') ∈ pre → private_pem w n ip' ≠ private_pem w n ip) as Hne.
  { intros ip' cert' Hin Heq. apply Hfresh. rewrite <- Heq. unfold cert_files.
    apply list_elem_of_In, in_flat_map. exists (ip', cert').
    split; [by apply list_elem_of_In|]. cbn. auto. }
  destruct junk as [junk|]; cbn; rewrite ?app_nil_r; split_and!; try done.
  all: intros ip' cert' Hin; destruct (Hentries ip' cert' Hin) as (Hd & Hf & _).
  all: split; [by apply elem_of_union_r|].
  - rewrite lookup_insert_ne; [done|]. intros Heq. by apply (Hne ip' cert' Hin).
  - done.
Qed.
End JoinDisk.

(** ** The bytes that are signed *)

Section SignedBytes.

Lemma append_cons x a b : String x a +:+ b = String x (a +:+ b).
Proof. reflexivity. Qed.

Lemma holds_char_app c a b : holds_char c (a +:+ b) = holds_char c a || holds_char c b.
Proof.
  induction a as [|x a IH]; [done|].
  rewrite append_cons. cbn [holds_char]. by rewrite IH, orb_assoc.
Qed.

Lemma digits_no_dot d : holds_char "." (NilEmpty.string_of_uint d) = false.
Proof. induction d; cbn; done. Qed.

Lemma FormatInt10_no_dot z : holds_char "." (FormatInt10 z) = false.
Proof.
  unfold FormatInt10. destruct (Z.to_int z) as [d|d]; cbn.
  - destruct d; cbn; try done; apply digits_no_dot.
  - destruct d; cbn; try done; apply digits_no_dot.
Qed.

Lemma FormatInt10_inj z1 z2 : FormatInt10 z1 = FormatInt10 z2 → z1 = z2.
Proof.
  unfold FormatInt10. intros H.
  assert (∀ z, NilZero.int_of_string (NilZero.string_of_int (Z.to_int z)) = Some (Z.to_int z))
    as Hisi.
  { intros z. apply NilZero.isi; destruct z; cbn; try done.
    - intros [= Hn]. by apply DecimalPos.Unsigned.to_uint_nonnil in Hn.
    - intros [= Hn]. by apply DecimalPos.Unsigned.to_uint_nonnil in Hn. }
  apply DecimalZ.to_int_inj. apply (f_equal NilZero.int_of_string) in H.
  rewrite !Hisi in H. congruence.
Qed.

(** A string is cut in one way only at its last dot. *)
Lemma cut_at_last_dot a b x y :
  holds_char "." x = false → holds_char "." y = false →
  a +:+ "." +:+ x = b +:+ "." +:+ y → a = b ∧ x = y.
Proof.
  intros Hx Hy. revert b.
  induction a as [|c a IH]; intros [|d b];
    repeat (rewrite ?append_cons; change (EmptyString +:+ ?s) with s).
  - by intros [= ->].
  - intros [= <- ->]. rewrite holds_char_app in Hx. cbn in Hx. by rewrite orb_true_r in Hx.
  - intros [= -> <-]. rewrite holds_char_app in Hy. cbn in Hy. by rewrite orb_true_r in Hy.
  - intros [= -> H]. destruct (IH b) as [-> ->]; [|done].
    by repeat (rewrite ?append_cons; change (EmptyString +:+ ?s) with s).
Qed.

(** X8.  The bytes that [JoinLuanet] signs determine the identity and the
    expiry: two different pairs never give the same bytes, although an
    identity may contain dots. *)
Theorem signed_bytes_determine_identity_and_expiry id1 id2 e1 e2 :
  id1 ≠ id2 ∨ e1 ≠ e2 →
  id1 +:+ "." +:+ FormatInt10 e1 ≠ id2 +:+ "." +:+ FormatInt10 e2.
Proof.
  intros Hne Heq.
  apply cut_at_last_dot in Heq as [-> Hf]; [|apply FormatInt10_no_dot..].
  apply FormatInt10_inj in Hf. destruct Hne as [?|?]; done.
Qed.
End SignedBytes.

(** ** The two loops *)

Section Loops.
Context {P : ProtoPkg} (w : World) (n : IpfsNode).

(** X9.  In every run of [JoinLuanet] and of the heartbeat loop, each
    [Encode] and each [Decode] is on the stream that the field [Stream]
    holds at that moment, and the field holds at the end the stream
    assigned last: after a rejoin nothing goes over the stream held
    before. *)
Theorem traffic_follows_assigned_stream fuel k st :
  (on_held_stream (Stream st) (evs_of (JoinLuanet w n fuel st)) = true ∧
   Stream (st_of (JoinLuanet w n fuel st)) =
     held_after (Stream st) (evs_of (JoinLuanet w n fuel st))) ∧
  (on_held_stream (Stream st) (evs_of (HeartBeat w n fuel k st)) = true ∧
   Stream (st_of (HeartBeat w n fuel k st)) =
     held_after (Stream st) (evs_of (HeartBeat w n fuel k st))).
Proof.
  split.
  - by destruct (JoinLuanet_session w n fuel st) as (_ & _ & _ & Hf & _).
  - destruct (Stream st) as [s|] eqn:Hs.
    + destruct (HeartBeat_session w n fuel k st s Hs) as (_ & _ & _ & Hf & _).
      unfold follows in Hf. by rewrite Hs in Hf.
    + destruct k as [|k]; [done|]. rewrite HeartBeat_without_stream by done. by cbn.
Qed.

(** X10.  In a run of the heartbeat loop that does not run out of fuel,
    [JoinLuanet] is called once for each [Encode] that failed, the requests
    of the rejoins included, and never otherwise. *)
Theorem HeartBeat_one_join_per_failed_send fuel k st :
  res_of (HeartBeat w n fuel k st) ≠ Starved →
  join_calls (evs_of (HeartBeat w n fuel k st)) =
    length (failed_sends (evs_of (HeartBeat w n fuel k st))).
Proof.
  intros Hres. destruct (Stream st) as [s|] eqn:Hs.
  - destruct (HeartBeat_session w n fuel k st s Hs) as (_ & _ & Hc & _). by apply Hc.
  - destruct k as [|k]; [done|]. by rewrite HeartBeat_without_stream.
Qed.


Lemma HeartBeat_tick_unreachable fuel st s :
  (∀ t addr, env_DialAddr w t addr ≠ None) →
  Stream st = Some s →
  wp (HeartBeat_tick w n (S fuel)) st (λ r st' evs,
    r = Ret tt ∧ Stream st' = Some s ∧ files st' = files st ∧ dirs st' = dirs st ∧
    (now st < now st')%nat ∧
    encoded evs = [heartbeat_message (env_GetBandwidthTotals w (now st))] ∧
    join_calls evs = length (failed_sends evs)).
Proof.
  intros Hd Hs. unfold HeartBeat_tick, SendQuicMsg, SendQuicMsg_with, Reporter_GetBandwidthTotals,
    deref_Stream, gob_Encode, log_Error.
  cbn [JoinLuanet].
  unfold Repo_Config, quic_DialAddr, log_Info.
  repeat first
    [ match goal with H : env_DialAddr _ _ _ = None |- _ => by destruct (Hd _ _ H) end
    | progress simplify_eq
    | wp_step ].
  all: cbn; split_and!; try done; lia.
Qed.

(** X12.  While the coordinator cannot be dialled, the heartbeat loop goes
    on: each of [k] firings hands one heartbeat to [Encode], every failed
    send is followed by one call of [JoinLuanet], whose error is dropped,
    and the loop keeps the stream it had and leaves the files alone. *)
Theorem HeartBeat_survives_unreachable_coordinator fuel k st s :
  (∀ t addr, env_DialAddr w t addr ≠ None) →
  Stream st = Some s →
  res_of (HeartBeat w n (S fuel) k st) = Ret tt ∧
  Stream (st_of (HeartBeat w n (S fuel) k st)) = Some s ∧
  files (st_of (HeartBeat w n (S fuel) k st)) = files st ∧
  length (encoded (evs_of (HeartBeat w n (S fuel) k st))) = k ∧
  Forall (is_heartbeat w) (encoded (evs_of (HeartBeat w n (S fuel) k st))) ∧
  join_calls (evs_of (HeartBeat w n (S fuel) k st)) =
    length (failed_sends (evs_of (HeartBeat w n (S fuel) k st))).
Proof.
  intros Hd. revert st.
  cut (∀ st, Stream st = Some s →
    wp (HeartBeat w n (S fuel) k) st (λ r st' evs,
      r = Ret tt ∧ Stream st' = Some s ∧ files st' = files st ∧
      length (encoded evs) = k ∧ Forall (is_heartbeat w) (encoded evs) ∧
      join_calls evs = length (failed_sends evs))).
  { intros H st Hs. exact (H st Hs). }
  unfold HeartBeat. induction k as [|k IH]; intros st Hs; cbn [iterate].
  { wp_steps. by split_and!. }
  wp_step. wp_call HeartBeat_tick_unreachable r1 st1 e1 E1 H1.
  destruct H1 as (-> & Hs1 & Hf1 & _ & _ & He1 & Hj1).
  wp_call IH r2 st2 e2 E2 H2. destruct H2 as (-> & Hs2 & Hf2 & Hl2 & Hh2 & Hj2).
  rewrite encoded_app, join_calls_app, failed_sends_app, !length_app, He1, Hj1, Hj2.
  split_and!; try done; try congruence.
  - cbn. by rewrite Hl2.
  - constructor; [by eexists|done].
Qed.

Lemma CmdHandlers_tick_post fuel st :
  wp (CmdHandlers_tick w n fuel) st (λ r st' evs,
    encoded evs = [] ∧ join_calls evs = 0%nat ∧ Stream st' = Stream st ∧
    ∀ s, Stream st = Some s → r = Ret tt ∧ length (decoded evs) = 1%nat).
Proof.
  unfold CmdHandlers_tick, ReadQuicMsg, deref_Stream, gob_Decode, log_Error.
  repeat first
    [ match goal with |- context [decide ?Q] => destruct (decide Q); cbn [Data] end
    | wp_step ].
  all: simplify_eq; cbn; split_and!; done.
Qed.

(** X13.  The command loop never answers and never rejoins: whatever it
    reads, a command [SpeedTestService] included, it encodes nothing, calls
    no join and leaves the field [Stream] alone; on a node with a stream
    each firing reads one envelope and the loop does not stop. *)
Theorem CmdHandlers_never_answers fuel k st :
  encoded (evs_of (CmdHandlers w n fuel k st)) = [] ∧
  join_calls (evs_of (CmdHandlers w n fuel k st)) = 0%nat ∧
  Stream (st_of (CmdHandlers w n fuel k st)) = Stream st ∧
  (∀ s, Stream st = Some s →
        res_of (CmdHandlers w n fuel k st) = Ret tt ∧
        length (decoded (evs_of (CmdHandlers w n fuel k st))) = k).
Proof.
  change (wp (CmdHandlers w n fuel k) st (λ r st' evs,
    encoded evs = [] ∧ join_calls evs = 0%nat ∧ Stream st' = Stream st ∧
    ∀ s, Stream st = Some s → r = Ret tt ∧ length (decoded evs) = k)).
  unfold CmdHandlers. revert st. induction k as [|k IH]; intros st; cbn [iterate].
  { wp_steps. done. }
  wp_steps. wp_call CmdHandlers_tick_post r1 st1 e1 E1 H1.
  destruct H1 as (He1 & Hj1 & Hs1 & Hr1).
  destruct r1 as [[]| |].
  - wp_call IH r2 st2 e2 E2 H2. destruct H2 as (He2 & Hj2 & Hs2 & Hr2).
    rewrite encoded_app, join_calls_app, decoded_app, length_app, He1, He2, Hj1, Hj2.
    split_and!; [done|done|congruence|].
    intros s Hs. destruct (Hr1 s Hs) as [_ ->]. rewrite Hs1, Hs in Hr2.
    destruct (Hr2 s eq_refl) as [-> ->]. done.
  - split_and!; [done|done|done|]. intros s Hs. by destruct (Hr1 s Hs).
  - split_and!; [done|done|done|]. intros s Hs. by destruct (Hr1 s Hs).
Qed.
End Loops.

(** ** The diagnostics and the two versions of the [test] command *)

Section DiagnosticsFacts.
Context {P : ProtoPkg} (w : World).

(** The older probe answers true exactly when the endpoint answered, the
    answer was decoded without an error and both ports are open in it. *)
Lemma cmd_old_probe_true_iff version tag URL st :
  res_of (cmd_old.probe w version tag URL st) = Ret true ↔
  ∃ body ip,
    env_http_Get w (now st) URL = Ok body ∧
    json_Decode_IpTest body IpTest_zero =
      ({| IpTest_Ip := ip; Swarm := true; Gateway := true |}, None).
Proof.
  unfold cmd_old.probe. cbn.
  destruct (env_http_Get w (now st) URL) as [body|e]; cbn.
  2: { split; [done|]. by intros (? & ? & [=] & _). }
  destruct (json_Decode_IpTest body IpTest_zero) as [[ip sw gw] [err|]] eqn:Hd; cbn.
  { split; [done|]. intros (? & ? & [= <-] & Hd'). congruence. }
  destruct sw, gw; cbn; split; try done.
  all: try (intros (? & ? & [= <-] & Hd'); congruence).
  intros _. eauto.
Qed.

(** X14.  [ipv4Test] and [ipv6Test] of the older command answer true
    exactly when the endpoint answered, the answer was decoded without an
    error and it says that both ports are open. *)
Theorem cmd_old_ipv4Test_true_iff st :
  (res_of (cmd_old.ipv4Test w st) = Ret true ↔
   ∃ body ip,
     env_http_Get w (now st) "http://ip4.luanet.io" = Ok body ∧
     json_Decode_IpTest body IpTest_zero =
       ({| IpTest_Ip := ip; Swarm := true; Gateway := true |}, None)) ∧
  (res_of (cmd_old.ipv6Test w st) = Ret true ↔
   ∃ body ip,
     env_http_Get w (now st) "http://ip6.luanet.io" = Ok body ∧
     json_Decode_IpTest body IpTest_zero =
       ({| IpTest_Ip := ip; Swarm := true; Gateway := true |}, None)).
Proof. split; apply cmd_old_probe_true_iff. Qed.

(** X15.  The probe of the older command and the probe of [core/node]
    ([ipv4Test] and [ipv6Test] are the two instances of each) make the same
    request, take the same time and log the same lines.  The older one
    answers true only if the newer one reports both ports open; the
    answers differ only when the decoding failed; and the newer probe logs
    no warning exactly when the older one answers true. *)
Theorem probes_agree_unless_decoding_fails version tag URL st :
  evs_of (cmd_old.probe w version tag URL st) = evs_of (node.probe w version tag URL st) ∧
  st_of (cmd_old.probe w version tag URL st) = set_now (S (now st)) st ∧
  st_of (node.probe w version tag URL st) = set_now (S (now st)) st ∧
  ∃ c b,
    res_of (node.probe w version tag URL st) = Ret c ∧
    res_of (cmd_old.probe w version tag URL st) = Ret b ∧
    (b = true → Swarm c = true ∧ Gateway c = true) ∧
    (b = Swarm c && Gateway c ∨
     ∃ body err, env_http_Get w (now st) URL = Ok body ∧
                 json_Decode_IpTest body IpTest_zero = (c, Some err)) ∧
    (complaints (evs_of (node.probe w version tag URL st)) = [] ↔ b = true).
Proof.
  unfold cmd_old.probe, node.probe. cbn.
  destruct (env_http_Get w (now st) URL) as [body|e]; cbn.
  2: { split_and!; try done. exists IpTest_zero, false.
       split_and!; try done; first [by left|by split]. }
  destruct (json_Decode_IpTest body IpTest_zero) as [[ip sw gw] [err|]] eqn:Hd; cbn.
  { split_and!; try done. eexists _, false.
    split_and!; try done; first [right; by eauto|by split]. }
  destruct sw, gw; cbn; split_and!; try done; eexists _, _;
    (split_and!; try done; first [by left|by split]).
Qed.


Lemma node_probe_post version tag URL st :
  wp (node.probe w version tag URL) st (λ r st' evs,
    (∃ c, r = Ret c) ∧ st' = set_now (S (now st)) st ∧
    Forall not_error_line evs ∧ printed evs = []).
Proof.
  unfold node.probe, http_Get, log_Warn. wp_steps.
  all: split_and!; [by eauto|done| |done].
  all: repeat first [apply Forall_nil_2 | apply Forall_cons_2; [by intros ? [=]|]
                    | apply Forall_app_2 ].
Qed.

Lemma cmd_old_probe_post version tag URL st :
  wp (cmd_old.probe w version tag URL) st (λ r st' evs,
    (∃ c, r = Ret c) ∧ st' = set_now (S (now st)) st ∧ printed evs = []).
Proof.
  unfold cmd_old.probe, http_Get, log_Warn. wp_steps.
  all: split_and!; [by eauto|done|done].
Qed.

(** X16.  [NodeTest] always sends a result.  Its [Ports] hold what
    [ipv4Test] and [ipv6Test] returned, under [v4] and [v6] and nothing
    else; the error line is logged exactly when neither is open; the
    speeds are those of the first server only, each zero when its test
    failed, and a failed download test does not stop the upload test. *)
Theorem NodeTest_result st :
  ∃ v4 v6 result,
    res_of (node.ipv4Test w st) = Ret v4 ∧
    res_of (node.ipv6Test w (set_now (1 + now st) st)) = Ret v6 ∧
    res_of (node.NodeTest w st) = Ret result ∧
    Ports result !! "v4" = Some v4 ∧
    Ports result !! "v6" = Some v6 ∧
    (∀ k, k ≠ "v4" → k ≠ "v6" → Ports result !! k = None) ∧
    (ELog "error" "Your node's ports is not open to the internet."
       ∈ evs_of (node.NodeTest w st) ↔
     IsOpen v4 = false ∧ IsOpen v6 = false) ∧
    Download result =
      match env_FindServer w (2 + now st) with
      | s :: _ => match DownloadTest s with None => DLSpeed s | Some _ => 0%float end
      | [] => 0%float
      end ∧
    Upload result =
      match env_FindServer w (2 + now st) with
      | s :: _ => match UploadTest s with None => ULSpeed s | Some _ => 0%float end
      | [] => 0%float
      end.
Proof.
  cbn [Nat.add].
  destruct (node.ipv4Test w st) as [[r4 st4] e4] eqn:E4.
  pose proof (wp_run _ _ _ _ _ _ E4 (node_probe_post _ _ _ _)) as ([v4 ->] & -> & Hn4 & _).
  destruct (node.ipv6Test w (set_now (S (now st)) st)) as [[r6 st6] e6] eqn:E6.
  pose proof (wp_run _ _ _ _ _ _ E6 (node_probe_post _ _ _ _)) as ([v6 ->] & -> & Hn6 & _).
  exists v4, v6.
  cut (wp (node.NodeTest w) st (λ r _ evs, ∃ result,
    r = Ret result ∧
    Ports result !! "v4" = Some v4 ∧
    Ports result !! "v6" = Some v6 ∧
    (∀ k, k ≠ "v4" → k ≠ "v6" → Ports result !! k = None) ∧
    (ELog "error" "Your node's ports is not open to the internet." ∈ evs ↔
     IsOpen v4 = false ∧ IsOpen v6 = false) ∧
    Download result =
      match env_FindServer w (S (S (now st))) with
      | s :: _ => match DownloadTest s with None => DLSpeed s | Some _ => 0%float end
      | [] => 0%float
      end ∧
    Upload result =
      match env_FindServer w (S (S (now st))) with
      | s :: _ => match UploadTest s with None => ULSpeed s | Some _ => 0%float end
      | [] => 0%float
      end)).
  { unfold wp. intros (result & Hr & H1 & H2 & H3 & H5 & H6 & H7). exists result.
    by split_and!. }
  unfold node.NodeTest. wp_step. apply (wp_of_run _ _ _ _ _ _ E4). cbv beta iota.
  wp_step. apply (wp_of_run _ _ _ _ _ _ E6). cbv beta iota.
  assert (∀ l, ELog "error" "Your node's ports is not open to the internet." ∈ e4 ++ e6 ++ l ↔
               ELog "error" "Your node's ports is not open to the internet." ∈ l) as Hskip.
  { intros l. rewrite !elem_of_app. rewrite Forall_forall in Hn4, Hn6. split; [|auto].
    intros [H|[H|H]]; [by destruct (Hn4 _ H _ eq_refl)|by destruct (Hn6 _ H _ eq_refl)|done]. }
  unfold log_Error, node.testDownload, node.testUpload, node.showSpeedResult, fmt_Println.
  cbn [now set_now].
  wp_steps.
  all: eexists; split; [reflexivity|]; cbn [Ports Download Upload].
  all: split; [by rewrite lookup_insert_ne, lookup_insert_eq|].
  all: split; [by rewrite lookup_insert_eq|].
  all: split; [by intros k H4 H6; rewrite !lookup_insert_ne, lookup_empty|].
  all: split;
    [|try done;
      repeat match goal with
             | |- context [DownloadTest ?s] => destruct (DownloadTest s)
             | |- context [UploadTest ?s] => destruct (UploadTest s)
             end; done].
  all: rewrite Hskip.
  all: match goal with
       | H : _ && _ = true |- _ =>
           apply andb_true_iff in H as [Ha%negb_true_iff Hb%negb_true_iff];
           split; [done|intros _; apply elem_of_cons; by left]
       | H : _ && _ = false |- _ =>
           split; [|intros [Ha Hb]; by rewrite Ha, Hb in H];
           cbn; rewrite ?elem_of_cons, elem_of_nil; intros Hin;
           repeat (destruct Hin as [Hin|Hin]; [discriminate Hin|]); done
       end.
Qed.



Lemma test_results_cons s rest :
  test_results (s :: rest) = DownloadTest s :: UploadTest s :: test_results rest.
Proof. done. Qed.
Lemma speedtests_run targets st :
  ∃ evs,
    cmd_old.speedtests targets st = (Ret (LibError <$> first_failure targets), st, evs) ∧
    downloads_started evs = Nat.min (length targets) (S (length (passed targets))).
Proof.
  induction targets as [|s rest IH]; [by eexists|].
  destruct IH as (evs & IH & Hn).
  unfold first_failure in *. rewrite test_results_cons.
  cbn -[Nat.min]. destruct (DownloadTest s) as [e|] eqn:Hd; cbn -[Nat.min].
  { eexists. split; [done|]. by destruct (length rest). }
  destruct (UploadTest s) as [e|] eqn:Hu; cbn -[Nat.min].
  { eexists. split; [done|]. by destruct (length rest). }
  destruct (CheckResultValid s); cbn -[Nat.min]; rewrite IH; cbn -[Nat.min].
  - exists ([EPrintln "[Speedtest] Downloading: "; EPrintln "[Speedtest] Uploading: ";
             EPrintln "[Speedtest] Download Speed"; EPrintln "[Speedtest] Upload Speed"]
            ++ evs).
    split; [done|]. rewrite downloads_started_app, Hn.
    change (downloads_started _) with 1%nat. lia.
  - exists ([EPrintln "[Speedtest] Downloading: "; EPrintln "[Speedtest] Uploading: ";
             EPrintln "[Speedtest] Download Speed"; EPrintln "[Speedtest] Upload Speed";
             EPrintln "Warning: Result seems to be wrong. Please speedtest again."]
            ++ evs).
    split; [done|]. rewrite downloads_started_app, Hn.
    change (downloads_started _) with 1%nat. lia.
Qed.

(** X18.  The older [test] command returns the error of the first test
    that fails, in the order download, upload, server after server, and
    nil when none fails; closed ports are no error.  It starts no download
    test after the failure. *)
Theorem cmd_old_Run_returns_first_failure st :
  res_of (cmd_old.Run w st) =
    Ret (LibError <$> first_failure (env_FindServer w (2 + now st))) ∧
  downloads_started (evs_of (cmd_old.Run w st)) =
    Nat.min (length (env_FindServer w (2 + now st)))
            (S (length (passed (env_FindServer w (2 + now st))))).
Proof.
  cbn [Nat.add]. set (targets := env_FindServer w (S (S (now st)))).
  change (wp (cmd_old.Run w) st (λ r _ evs,
    r = Ret (LibError <$> first_failure targets) ∧
    downloads_started evs = Nat.min (length targets) (S (length (passed targets))))).
  unfold cmd_old.Run. wp_step.
  wp_call cmd_old_probe_post r4 st4 e4 E4 H4. destruct H4 as ([b4 ->] & -> & Hp4).
  wp_step.
  wp_call cmd_old_probe_post r6 st6 e6 E6 H6. destruct H6 as ([b6 ->] & -> & Hp6).
  cbn [now set_now].
  wp_steps.
  all: match goal with |- wp (cmd_old.speedtests ?t) ?s _ =>
         destruct (speedtests_run t s) as (evs & Hrun & Hn);
         apply (wp_of_run _ _ _ _ _ _ Hrun) end.
  all: unfold downloads_started in *; rewrite !printed_app, Hp4, Hp6; cbn -[Nat.min].
  all: by rewrite ?app_nil_r.
Qed.
End DiagnosticsFacts.

Section Dots.

Lemma dots_from waiting i d fuel :
  waiting (i + d)%nat = true →
  (∀ j, (i ≤ j < i + d)%nat → waiting j = false) →
  (d < fuel)%nat →
  node.dots waiting i fuel = Some (replicate d ".").
Proof.
  revert i fuel. induction d as [|d IH]; intros i fuel Hw Hn Hf.
  - destruct fuel as [|fuel]; [lia|]. cbn. rewrite Nat.add_0_r in Hw. by rewrite Hw.
  - destruct fuel as [|fuel]; [lia|]. cbn. rewrite (Hn i) by lia.
    rewrite (IH (S i) fuel); [done| | |lia].
    + by replace (S i + d)%nat with (i + S d)%nat by lia.
    + intros j Hj. apply Hn. lia.
Qed.

(** X19.  [dots] prints one dot for each round at which no sender waits
    on [quit] and returns at the first round at which one does, having
    printed nothing else; when no sender ever waits it does not return. *)
Theorem dots_prints_until_quit waiting k fuel :
  (waiting k = true →
   (∀ j, (j < k)%nat → waiting j = false) →
   (k < fuel)%nat →
   node.dots waiting 0 fuel = Some (replicate k ".")) ∧
  ((∀ j, waiting j = false) → node.dots waiting 0 fuel = None).
Proof.
  split.
  - intros Hw Hn Hf. apply dots_from; [done| |done]. intros j Hj. apply Hn. lia.
  - intros Hn. generalize 0%nat. induction fuel as [|fuel IH]; intros i; [done|].
    cbn. by rewrite Hn, IH.
Qed.
End Dots.

(** ** The context and the bootstrapper *)

Section LifecycleFacts.
Context {Ctx Closer Router PeersFunc : Type}.

(** X20.  [Context] never returns nil: it returns the context of the
    node, which is [context.TODO()] from the first call on when there was
    none; a second call returns the same context and changes nothing. *)
Theorem Context_is_set_once (context_TODO : Ctx) (n : core.Fields Ctx Closer Router) :
  core.ctx (core.Context context_TODO n).2 = Some (core.Context context_TODO n).1 ∧
  core.Context context_TODO (core.Context context_TODO n).2 = core.Context context_TODO n ∧
  (∀ c, core.ctx n = Some c → core.Context context_TODO n = (c, n)).
Proof.
  unfold core.Context. destruct n as [[c|] r b]; cbn; split_and!; try done.
  by intros ? [= <-].
Qed.

Lemma closed_app (a b : list (core.BootEvent Closer PeersFunc)) : core.closed (a ++ b) = core.closed a ++ core.closed b.
Proof. apply omap_app. Qed.

Lemma started_app (a b : list (core.BootEvent Closer PeersFunc)) :
  core.started (a ++ b) = core.started a ++ core.started b.
Proof. apply omap_app. Qed.

Lemma Bootstrap_balance answer cfg (n : core.Fields Ctx Closer Router) :
  core.Routing n ≠ None →
  let '(_, n', evs) := core.Bootstrap (PeersFunc := PeersFunc) answer cfg n in
  core.Routing n' = core.Routing n ∧ core.ctx n' = core.ctx n ∧
  option_list (core.Bootstrapper n) ++ core.started evs =
    core.closed evs ++ option_list (core.Bootstrapper n').
Proof.
  intros Hr. unfold core.Bootstrap. destruct (core.Routing n) as [r|] eqn:Er; [|done].
  destruct (answer _) as [b err]. cbn. rewrite closed_app, started_app.
  destruct (core.Bootstrapper n) as [b0|], b as [b1|]; cbn; by rewrite ?Er.
Qed.

(** X21.  On a node without routing [Bootstrap] does nothing.  On a node
    with routing, through any number of calls, every bootstrapper that was
    held or started has been closed, once and in order, but the one the
    node holds at the end. *)
Theorem Bootstrap_closes_what_it_replaces answers i cfgs (n : core.Fields Ctx Closer Router) :
  (core.Routing n = None →
   core.Bootstraps (PeersFunc := PeersFunc) answers i cfgs n = (n, [])) ∧
  (core.Routing n ≠ None →
   option_list (core.Bootstrapper n) ++
     core.started (core.Bootstraps (PeersFunc := PeersFunc) answers i cfgs n).2 =
   core.closed (core.Bootstraps (PeersFunc := PeersFunc) answers i cfgs n).2 ++
     option_list (core.Bootstrapper (core.Bootstraps (PeersFunc := PeersFunc) answers i cfgs n).1)).
Proof.
  split.
  - intros Hr. revert i. induction cfgs as [|cfg rest IH]; intros i; [done|].
    cbn. unfold core.Bootstrap. rewrite Hr. by rewrite IH.
  - revert i n. induction cfgs as [|cfg rest IH]; intros i n Hr.
    { cbn. by rewrite app_nil_r. }
    cbn. pose proof (Bootstrap_balance (answers i) cfg n Hr) as H.
    destruct (core.Bootstrap (answers i) cfg n) as [[err n1] e1].
    destruct H as (Hr1 & _ & Hb).
    specialize (IH (S i) n1). rewrite Hr1 in IH. specialize (IH Hr).
    destruct (core.Bootstraps answers (S i) rest n1) as [n2 e2]. cbn [fst snd] in *.
    rewrite closed_app, started_app, app_assoc, Hb, <- !app_assoc. by rewrite IH.
Qed.
End LifecycleFacts.

Section PeersFacts.
Context {P : ProtoPkg} {AddrInfo : Type} (w : World).
Context (Config_BootstrapPeers : Config → result (list AddrInfo) string).

(** X22.  The closure that [Bootstrap] installs never fails: it returns
    the peers of the configuration without a log line, or, when the
    configuration cannot be read or its addresses cannot be parsed, no
    peers and one warning. *)
Theorem default_BootstrapPeers_never_fails st :
  ∃ ps,
    res_of (core.default_BootstrapPeers w Config_BootstrapPeers st) = Ret ps ∧
    (complaints (evs_of (core.default_BootstrapPeers w Config_BootstrapPeers st)) = [] ↔
     ∃ cfg, env_Repo_Config w (now st) = Ok cfg ∧ Config_BootstrapPeers cfg = Ok ps) ∧
    (complaints (evs_of (core.default_BootstrapPeers w Config_BootstrapPeers st)) ≠ [] →
     ps = [] ∧
     complaints (evs_of (core.default_BootstrapPeers w Config_BootstrapPeers st)) =
       ["failed to parse bootstrap peers from config"]).
Proof.
  unfold core.default_BootstrapPeers, core.loadBootstrapPeers. cbn.
  destruct (env_Repo_Config w (now st)) as [cfg|e]; cbn.
  - destruct (Config_BootstrapPeers cfg) as [ps|e] eqn:Hp; cbn.
    + exists ps. split_and!; [done| |done]. split; [by eauto|done].
    + exists []. split_and!; [done| |done]. split; [done|]. intros (? & [= <-] & ?). congruence.
  - exists []. split_and!; [done| |done]. split; [done|]. by intros (? & [=] & _).
Qed.
End PeersFacts.

(** ** The statements above, on the worlds of [Example] and [Scenario] *)



Lemma HeartBeat_one_join_per_failed_send_witness :
  res_of (HeartBeat Example.broken_link Example.qm123 1 2 Example.online) ≠ Starved ∧
  length (failed_sends (evs_of (HeartBeat Example.broken_link Example.qm123 1 2 Example.online)))
    = 2%nat ∧
  join_calls (evs_of (HeartBeat Example.broken_link Example.qm123 1 2 Example.online)) =
    length (failed_sends (evs_of (HeartBeat Example.broken_link Example.qm123 1 2 Example.online))).
Proof.
  assert (res_of (HeartBeat Example.broken_link Example.qm123 1 2 Example.online) ≠ Starved)
    as H by (vm_compute; discriminate).
  split; [exact H|]. split; [vm_compute; reflexivity|].
  exact (HeartBeat_one_join_per_failed_send Example.broken_link Example.qm123 1 2
           Example.online H).
Defined.

Lemma JoinLuanet_writes_only_received_certificates_witness :
  received_certs (evs_of (JoinLuanet Example.calm Example.qm123 1 Example.boot)) =
    Example.two_certs ∧
  ("/data/lua/config" ∉
     cert_files Example.calm Example.qm123
       (received_certs (evs_of (JoinLuanet Example.calm Example.qm123 1 Example.boot)))) ∧
  files (st_of (JoinLuanet Example.calm Example.qm123 1 Example.boot)) !! "/data/lua/config" =
    files Example.boot !! "/data/lua/config".
Proof.
  assert (received_certs (evs_of (JoinLuanet Example.calm Example.qm123 1 Example.boot)) =
          Example.two_certs) as Hc by (vm_compute; reflexivity).
  assert ("/data/lua/config" ∉
            cert_files Example.calm Example.qm123
              (received_certs (evs_of (JoinLuanet Example.calm Example.qm123 1 Example.boot))))
    as H.
  { rewrite Hc. intros Hin. apply list_elem_of_In in Hin. vm_compute in Hin.
    repeat (destruct Hin as [Hin|Hin]; [discriminate Hin|]). exact Hin. }
  split; [exact Hc|]. split; [exact H|].
  pose proof (JoinLuanet_writes_only_received_certificates Example.calm Example.qm123 1
                Example.boot) as [_ Hframe].
  exact (Hframe _ H).
Defined.

Lemma CmdHandlers_never_answers_witness :
  env_Decode Scenario.testing 1 0%nat = Ok Scenario.speed_command ∧
  Service Scenario.speed_command = SpeedTestService ∧
  Stream Example.online = Some 0%nat ∧
  res_of (CmdHandlers Scenario.testing Example.qm123 1 3 Example.online) = Ret tt ∧
  length (decoded (evs_of (CmdHandlers Scenario.testing Example.qm123 1 3 Example.online))) =
    3%nat ∧
  encoded (evs_of (CmdHandlers Scenario.testing Example.qm123 1 3 Example.online)) = [].
Proof.
  destruct (CmdHandlers_never_answers Scenario.testing Example.qm123 1 3 Example.online)
    as (He & _ & _ & Hr).
  destruct (Hr 0%nat eq_refl) as [Hres Hlen].
  split_and!; [reflexivity|reflexivity|reflexivity|exact Hres|exact Hlen|exact He].
Defined.

Lemma JoinLuanet_fails_before_send_witness :
  env_Repo_Config Example.broken_link (now Example.online) = Ok Example.cfg ∧
  env_DialAddr Example.broken_link (1 + now Example.online) "api.luanet.io:4242" =
    Some "no recent network activity" ∧
  JoinLuanet Example.broken_link Example.qm123 1 Example.online =
    (Ret (Error (LibError "no recent network activity")), set_now 3 Example.online,
     [ECall_JoinLuanet;
      ELog "info" "Connecting to node address: api.luanet.io:4242";
      EDialAddr "api.luanet.io:4242" false]).
Proof.
  split; [reflexivity|]. split; [reflexivity|].
  destruct (JoinLuanet_fails_before_send Example.broken_link Example.qm123 0 Example.online
              "no recent network activity") as [_ H].
  destruct (H Example.cfg eq_refl) as [Hdial _].
  exact (Hdial eq_refl).
Defined.

Lemma JoinLuanet_error_kinds_witness :
  res_of Example.no_private_run = Ret (Error (LibError "permission denied")) ∧
  ((∃ e, LibError "permission denied" = LibError e ∧
         encoded (evs_of (JoinLuanet Example.no_private Example.qm123 1 Example.boot)) = [] ∧
         st_of (JoinLuanet Example.no_private Example.qm123 1 Example.boot) =
           set_now (now (st_of (JoinLuanet Example.no_private Example.qm123 1 Example.boot)))
             Example.boot) ∨
   (∃ s m jr, LibError "permission denied" =
                Errorf ("Failed to join lua network: " +:+ Message jr) ∧
              last (evs_of (JoinLuanet Example.no_private Example.qm123 1 Example.boot)) =
                Some (EDecode s (Some m)) ∧
              Data m = DJoinRes jr ∧ Success jr = false) ∨
   (∃ e m jr, LibError "permission denied" = LibError e ∧
              last (decoded (evs_of (JoinLuanet Example.no_private Example.qm123 1
                                       Example.boot))) = Some (Some m) ∧
              Data m = DJoinRes jr ∧ Success jr = true ∧
              disk_failure Example.no_private Example.qm123 (Certs jr)
                (evs_of (JoinLuanet Example.no_private Example.qm123 1 Example.boot)))).
Proof.
  assert (res_of (JoinLuanet Example.no_private Example.qm123 1 Example.boot) =
          Ret (Error (LibError "permission denied"))) as H by (vm_compute; reflexivity).
  split; [exact H|].
  exact (JoinLuanet_error_kinds Example.no_private Example.qm123 1 Example.boot _ H).
Defined.

Lemma JoinLuanet_request_addresses_witness :
  (∀ t, env_Repo_Config Scenario.v4_only t = Ok Example.cfg) ∧
  ∃ asked_later encoded_later,
    asked (evs_of (JoinLuanet Scenario.v4_only Example.qm123 1 Example.boot)) =
      "http://ip4.luanet.io" :: "http://ip6.luanet.io" :: asked_later ∧
    encoded (evs_of (JoinLuanet Scenario.v4_only Example.qm123 1 Example.boot)) =
      Scenario.v4_request :: encoded_later.
Proof.
  split; [reflexivity|].
  exact (JoinLuanet_request_addresses Scenario.v4_only Example.qm123 0 Example.boot
           Example.cfg "sk-qm123|Qm123.1700000000"
           (λ _, eq_refl) eq_refl eq_refl eq_refl).
Defined.

Lemma JoinLuanet_never_returns_while_sends_fail_witness :
  res_of (JoinLuanet Example.mute Example.qm123 3 Example.boot) = Starved ∧
  join_calls (evs_of (JoinLuanet Example.mute Example.qm123 3 Example.boot)) = 3%nat.
Proof.
  apply (JoinLuanet_never_returns_while_sends_fail Example.mute Example.qm123 3 Example.boot);
    cbn; intros; discriminate.
Defined.

Lemma write_certs_not_rolled_back_witness :
  res_of (write_certs Scenario.second_private_fails Example.qm123 Example.two_certs
            Example.boot) = Ret (Some (LibError "permission denied")) ∧
  files (st_of (write_certs Scenario.second_private_fails Example.qm123 Example.two_certs
                  Example.boot))
    !! private_pem Scenario.second_private_fails Example.qm123 "1.2.3.4" = Some "KEY-1".
Proof.
  pose proof (write_certs_not_rolled_back Scenario.second_private_fails Example.qm123
                [("1.2.3.4", Example.cert1)] "5.6.7.8" Example.cert2 [] Example.boot
                (st_of (write_certs Scenario.second_private_fails Example.qm123
                          [("1.2.3.4", Example.cert1)] Example.boot))
                (evs_of (write_certs Scenario.second_private_fails Example.qm123
                           [("1.2.3.4", Example.cert1)] Example.boot))
                "permission denied" None) as H.
  destruct H as (Hres & _ & Hfiles).
  - vm_compute. reflexivity.
  - apply (bool_decide_unpack _). vm_compute. exact I.
  - vm_compute. reflexivity.
  - vm_compute. reflexivity.
  - split; [exact Hres|].
    apply (Hfiles "1.2.3.4" Example.cert1). apply elem_of_cons. by left.
Defined.

Lemma Bootstrap_closes_what_it_replaces_witness :
  core.Routing Scenario.routed ≠ None ∧
  core.started (core.Bootstraps Scenario.numbered 0
                  [Scenario.no_function; Scenario.no_function; Scenario.no_function]
                  Scenario.routed).2 = [0; 1; 2]%nat ∧
  core.closed (core.Bootstraps Scenario.numbered 0
                 [Scenario.no_function; Scenario.no_function; Scenario.no_function]
                 Scenario.routed).2 ++
    option_list (core.Bootstrapper
                   (core.Bootstraps Scenario.numbered 0
                      [Scenario.no_function; Scenario.no_function; Scenario.no_function]
                      Scenario.routed).1) = [0; 1; 2]%nat.
Proof.
  assert (core.Routing Scenario.routed ≠ None) as H by discriminate.
  split; [exact H|]. split; [reflexivity|].
  rewrite <- (proj2 (Bootstrap_closes_what_it_replaces Scenario.numbered 0
                       [Scenario.no_function; Scenario.no_function; Scenario.no_function]
                       Scenario.routed) H).
  reflexivity.
Defined.
Lemma HeartBeat_survives_unreachable_coordinator_witness :
  (∀ t addr, env_DialAddr Example.broken_link t addr ≠ None) ∧
  Stream Example.online = Some 0%nat ∧
  res_of (HeartBeat Example.broken_link Example.qm123 1 3 Example.online) = Ret tt ∧
  length (encoded (evs_of (HeartBeat Example.broken_link Example.qm123 1 3 Example.online))) =
    3%nat.
Proof.
  assert (∀ t addr, env_DialAddr Example.broken_link t addr ≠ None) as H
    by (intros t addr; discriminate).
  split; [exact H|]. split; [reflexivity|].
  destruct (HeartBeat_survives_unreachable_coordinator Example.broken_link Example.qm123 0 3
              Example.online 0%nat H eq_refl) as (Hr & _ & _ & Hl & _).
  split; [exact Hr|exact Hl].
Defined.

Lemma signed_bytes_determine_identity_and_expiry_witness :
  ("Qm.1" ≠ "Qm" ∨ 2 ≠ 12) ∧
  "Qm.1" +:+ "." +:+ FormatInt10 2 ≠ "Qm" +:+ "." +:+ FormatInt10 12.
Proof.
  assert ("Qm.1" ≠ "Qm" ∨ 2 ≠ 12) as H by (left; discriminate).
  split; [exact H|]. exact (signed_bytes_determine_identity_and_expiry "Qm.1" "Qm" 2 12 H).
Defined.

Lemma dots_prints_until_quit_witness :
  node.dots (λ i, 3 <=? i)%nat 0 10 = Some ["."; "."; "."].
Proof.
  destruct (dots_prints_until_quit (λ i, 3 <=? i)%nat 3 10) as [H _].
  apply H; [reflexivity| |lia].
  intros j Hj. apply Nat.leb_gt. exact Hj.
Defined.
